(** * Batch image compressor: the batch state machine of [MultiImageCompressor]

    A shallow embedding of the batch component (the React component
    [MultiImageCompressor] and its helper [getFileSizeFromDataURL]).

    Conventions of the embedding.
    - A JavaScript [number] holding a size in KB is an exact rational ([Q]):
      a size is the two-decimal number itself where the component holds the
      double nearest to it, and sums are exact where the component rounds.
      The round-off of a sum of sizes is far below 0.01, so the component
      and the embedding can take different sides of a comparison only when
      the exact sum equals the bound, and can print different last digits
      only on a tie of the exact decimal.  The numbered theorems are stated
      so as to hold on either side of such a case.  [Number(x.toFixed(2))]
      is rounding to the nearest hundredth, ties upwards, as
      [Number.prototype.toFixed] specifies it.
    - A JavaScript string is a [string]; [string | null] is [option string].
      Truthiness of such a value ([if (s)], [a || b]) is [truthy].
    - React state is passed explicitly.  Work that the component hands to the
      browser (a [FileReader], an [Image] being decoded, a [setTimeout]) is
      kept in the state as a pending task, and the completion of a task is a
      step of the machine, so that completions interleave freely.
    - [atob], [String.prototype.split], [startsWith] and the regular
      expression of the download name are host functions; they are written
      out here after their specifications. *)

From Stdlib Require Import ZArith QArith Qround Qminmax Lqa Lia List String Ascii Bool.
From Stdlib Require Import DecimalString.
Import ListNotations.

Local Open Scope string_scope.
Local Open Scope list_scope.
Local Open Scope Q_scope.

(* ========================================================================= *)
(** ** Host functions on strings *)
(* ========================================================================= *)

Module Host.

(** [s.split(sep)] for a one-character separator: never empty. *)
Fixpoint split (sep : ascii) (s : string) : list string :=
  match s with
  | EmptyString => [EmptyString]
  | String c rest =>
      if Ascii.eqb c sep then EmptyString :: split sep rest
      else match split sep rest with
           | [] => [String c EmptyString]
           | hd :: tl => String c hd :: tl
           end
  end.

(** [s.startsWith(p)]. *)
Definition startsWith (s p : string) : bool := String.prefix p s.

(** Truthiness of a [string | null | undefined] value. *)
Definition truthy (o : option string) : bool :=
  match o with
  | Some s => negb (String.eqb s EmptyString)
  | None => false
  end.

(** The value of a character in the base64 alphabet. *)
Definition b64_value (c : ascii) : option N :=
  let n := N_of_ascii c in
  if ((65 <=? n) && (n <=? 90))%N then Some (n - 65)%N
  else if ((97 <=? n) && (n <=? 122))%N then Some (n - 71)%N
  else if ((48 <=? n) && (n <=? 57))%N then Some (n + 4)%N
  else if (n =? 43)%N then Some 62%N
  else if (n =? 47)%N then Some 63%N
  else None.

(** ASCII whitespace: TAB, LF, FF, CR, SPACE. *)
Definition is_ascii_whitespace (c : ascii) : bool :=
  let n := N_of_ascii c in
  ((n =? 9) || (n =? 10) || (n =? 12) || (n =? 13) || (n =? 32))%N.

Fixpoint strip_whitespace (s : string) : list ascii :=
  match s with
  | EmptyString => []
  | String c rest =>
      if is_ascii_whitespace c then strip_whitespace rest
      else c :: strip_whitespace rest
  end.

Definition is_pad (c : ascii) : bool := (N_of_ascii c =? 61)%N.

(** When the length is a multiple of four, one or two trailing [=] go. *)
Definition strip_padding (l : list ascii) : list ascii :=
  if (Nat.eqb (Nat.modulo (List.length l) 4) 0) then
    match rev l with
    | p1 :: p2 :: body =>
        if is_pad p1 then
          if is_pad p2 then rev body else rev (p2 :: body)
        else l
    | _ => l
    end
  else l.

Fixpoint sextets (l : list ascii) : option (list N) :=
  match l with
  | [] => Some []
  | c :: rest =>
      match b64_value c, sextets rest with
      | Some v, Some vs => Some (v :: vs)
      | _, _ => None
      end
  end.

(** Four sextets give three bytes; a tail of three gives two, of two one. *)
Fixpoint bytes_of_sextets (l : list N) : list N :=
  match l with
  | a :: b :: c :: d :: rest =>
      (a * 4 + b / 16)%N :: ((b mod 16) * 16 + c / 4)%N
        :: ((c mod 4) * 64 + d)%N :: bytes_of_sextets rest
  | [a; b; c] => [(a * 4 + b / 16)%N; ((b mod 16) * 16 + c / 4)%N]
  | [a; b] => [(a * 4 + b / 16)%N]
  | _ => []
  end.

Fixpoint string_of_bytes (l : list N) : string :=
  match l with
  | [] => EmptyString
  | b :: rest => String (ascii_of_N b) (string_of_bytes rest)
  end.

(** [atob(data)], the forgiving base64 decoding of the HTML standard.
    [None] stands for the [InvalidCharacterError] it throws. *)
Definition atob (data : string) : option string :=
  let l := strip_padding (strip_whitespace data) in
  if Nat.eqb (Nat.modulo (List.length l) 4) 1 then None
  else match sextets l with
       | Some vs => Some (string_of_bytes (bytes_of_sextets vs))
       | None => None
       end.

(** [String(n)] of a non-negative integer. *)
Definition string_of_N (n : N) : string :=
  NilZero.string_of_uint (N.to_uint n).

End Host.

(* ========================================================================= *)
(** ** Numbers *)
(* ========================================================================= *)

Module Num.

(** [a > b] on numbers. *)
Definition gtb (a b : Q) : bool := negb (Qle_bool a b).

(** [Number(x.toFixed(2))]: the nearest multiple of 0.01, ties upwards
    (the arguments of the component are never negative). *)
Definition round2 (x : Q) : Q :=
  inject_Z (Qfloor (x * 100 + (1 # 2))) / 100.

(** [x.toFixed(1)] below 1e21 for the number whose exact value is [x]: the
    sign, then the nearest count of tenths of the magnitude (ties upwards)
    printed with one fractional digit.  On a tie of an exact decimal (0.15,
    12.35) the component, which holds the nearest double, may print the
    digit below; the numbered theorems state the sign of a print and the
    range of the number printed, and no digit at a tie. *)
Definition toFixed1 (x : Q) : string :=
  let neg := gtb 0 x in
  let m := if neg then - x else x in
  let n := Qfloor (m * 10 + (1 # 2)) in
  ((if neg then "-" else "") ++
   Host.string_of_N (Z.to_N (n / 10)) ++ "." ++
   Host.string_of_N (Z.to_N (n mod 10)))%string.

End Num.

(* ========================================================================= *)
(** ** The component: types, helper, handlers *)
(* ========================================================================= *)

Module Model.

Import Host Num.

(** The part of a DOM [File] the component reads, and its content. *)
Record File := {
  name : string;
  type : string;
  size : N;                 (* bytes *)
  content : list N
}.

(** [type ImageCompressionState]. *)
Record ImageCompressionState := {
  id : string;
  file : File;
  originalSize : Q;                  (* Size in KB *)
  originalSrc : string;
  compressedSrc : option string;
  compressedSize : Q;                (* Size in KB *)
  isCompressing : bool;
  error : option string
}.

(** How a JavaScript function body completes. *)
Inductive completion (A : Type) : Type :=
| Returns (a : A)
| Throws.
Arguments Returns {A} a.
Arguments Throws {A}.

(** The [try] block of [getFileSizeFromDataURL]. *)
Definition getFileSizeFromDataURL_try (dataurl : string) : completion Q :=
  match nth_error (split "," dataurl) 1 with
  | None => Returns 0                                  (* undefined *)
  | Some base64 =>
      if negb (truthy (Some base64)) then Returns 0
      else match atob base64 with
           | None => Throws
           | Some binary =>
               Returns (round2 (inject_Z (Z.of_nat (String.length binary)) / 1024))
           end
  end.

(** [getFileSizeFromDataURL]: the [try] block under its [catch]. *)
Definition getFileSizeFromDataURL (dataurl : string) : completion Q :=
  match getFileSizeFromDataURL_try dataurl with
  | Returns v => Returns v
  | Throws => Returns 0
  end.

Definition MAX_TOTAL_SIZE_MB : Q := 50.

(** [prev.map(img => img.id === imgId ? f(img) : img)]. *)
Definition updateById (imgId : string)
    (f : ImageCompressionState -> ImageCompressionState)
    (prev : list ImageCompressionState) : list ImageCompressionState :=
  map (fun img => if String.eqb (id img) imgId then f img else img) prev.

Definition set_compressing (b : bool) (img : ImageCompressionState) :=
  {| id := id img; file := file img; originalSize := originalSize img;
     originalSrc := originalSrc img; compressedSrc := compressedSrc img;
     compressedSize := compressedSize img; isCompressing := b;
     error := error img |}.

Definition set_error (e : option string) (img : ImageCompressionState) :=
  {| id := id img; file := file img; originalSize := originalSize img;
     originalSrc := originalSrc img; compressedSrc := compressedSrc img;
     compressedSize := compressedSize img; isCompressing := isCompressing img;
     error := e |}.

Definition set_originalSrc (src : string) (img : ImageCompressionState) :=
  {| id := id img; file := file img; originalSize := originalSize img;
     originalSrc := src; compressedSrc := compressedSrc img;
     compressedSize := compressedSize img; isCompressing := isCompressing img;
     error := error img |}.

Definition set_compressed (src : string) (sz : Q) (img : ImageCompressionState) :=
  {| id := id img; file := file img; originalSize := originalSize img;
     originalSrc := originalSrc img; compressedSrc := Some src;
     compressedSize := sz; isCompressing := isCompressing img;
     error := error img |}.

(** *** [compressImage]: its four state updates *)

(** On entry: [{ ...img, isCompressing: true, error: null }]. *)
Definition compress_begin (imgId : string) prev :=
  updateById imgId (fun img => set_error None (set_compressing true img)) prev.

(** [onload] without a 2d context. *)
Definition compress_canvas_error (imgId : string) prev :=
  updateById imgId
    (fun img => set_error (Some "Canvas error.") (set_compressing false img)) prev.

(** [onload] with a context: [compressedDataURL] is what
    [canvas.toDataURL("image/jpeg", qualityPercent / 100)] returned.  Were the
    size helper to throw, the handler would end before its [setImages]. *)
Definition compress_done (imgId : string) (compressedDataURL : string) prev :=
  match getFileSizeFromDataURL compressedDataURL with
  | Returns fileSize =>
      updateById imgId
        (fun img =>
           set_compressing false (set_compressed compressedDataURL fileSize img))
        prev
  | Throws => prev
  end.

(** [onerror] of the image. *)
Definition compress_load_error (imgId : string) prev :=
  updateById imgId
    (fun i => set_error (Some "Image load failed.") (set_compressing false i)) prev.

(** *** The [FileReader] callbacks of [handleFileProcessing] *)

Definition reader_loadstart (i : string) prev :=
  updateById i (set_compressing true) prev.

Definition reader_load (i : string) (src : string) prev :=
  updateById i (fun img => set_compressing true (set_originalSrc src img)) prev.

Definition reader_error (i : string) prev :=
  updateById i
    (fun img => set_error (Some "Read error.") (set_compressing false img)) prev.

(** *** [handleFileProcessing] *)

(** [images.reduce((sum, img) => sum + img.originalSize, 0)]. *)
Definition sumOriginal (images : list ImageCompressionState) : Q :=
  fold_left (fun sum img => sum + originalSize img) images 0.

Definition sumCompressed (images : list ImageCompressionState) : Q :=
  fold_left (fun sum img => sum + compressedSize img) images 0.

(** [Number((file.size / 1024).toFixed(2))]. *)
Definition sizeInKB (f : File) : Q :=
  round2 (inject_Z (Z.of_N (size f)) / 1024).

Definition newImage (i : string) (f : File) : ImageCompressionState :=
  {| id := i; file := f; originalSize := sizeInKB f; originalSrc := "";
     compressedSrc := None; compressedSize := 0; isCompressing := false;
     error := None |}.

Definition alert_not_image (f : File) : string :=
  ("File " ++ name f ++ " ignored: Not an image.")%string.

Definition alert_budget (f : File) : string :=
  ("File " ++ name f ++ " ignored: Total batch size exceeds 50MB.")%string.

(** The [for] loop over the file list.  [randomUUID k] is the identifier that
    the [k]-th call of [crypto.randomUUID()] in this run returns; the
    accumulators are the loop's [newImages] and [totalSize], and the alerts
    shown so far.  [totalSize] is the exact sum here; the component's sum of
    doubles lies within round-off of it, so the two tests [> 51200] agree
    unless the exact sum is 51200 itself.  The numbered theorems on the
    loop hold on either side of that case. *)
Fixpoint fileLoop (randomUUID : nat -> string) (fileList : list File)
    (newImages : list ImageCompressionState) (totalSize : Q)
    (alerts : list string) : list ImageCompressionState * list string :=
  match fileList with
  | [] => (newImages, alerts)
  | f :: rest =>
      let totalSize := totalSize + sizeInKB f in
      if negb (startsWith (type f) "image/") then
        (* continue *)
        fileLoop randomUUID rest newImages totalSize
                 (alerts ++ [alert_not_image f])
      else if gtb totalSize (MAX_TOTAL_SIZE_MB * 1024) then
        (* break *)
        (newImages, alerts ++ [alert_budget f])
      else
        fileLoop randomUUID rest
                 (newImages ++ [newImage (randomUUID (List.length newImages)) f])
                 totalSize alerts
  end.

(** The records and alerts of one call on the current [images]. *)
Definition processFiles (images : list ImageCompressionState)
    (randomUUID : nat -> string) (fileList : list File) :=
  fileLoop randomUUID fileList [] (sumOriginal images) [].

Definition acceptedImages images randomUUID fileList :=
  fst (processFiles images randomUUID fileList).

(** *** [handleRemoveImage], reset *)

Definition handleRemoveImage (i : string) (prev : list ImageCompressionState) :=
  filter (fun img => negb (String.eqb (id img) i)) prev.

(** *** [globalStats] *)

Record GlobalStats := {
  originalTotal : string;
  compressedTotal : string;
  saved : string;
  ratio : string;
  allCompressed : bool
}.

Definition isFinished (img : ImageCompressionState) : bool :=
  (truthy (compressedSrc img) || truthy (error img)) && negb (isCompressing img).

Definition globalStats (images : list ImageCompressionState) : GlobalStats :=
  let originalTotal' := sumOriginal images in
  let compressedTotal' := sumCompressed images in
  let saved' := originalTotal' - compressedTotal' in
  let ratio' :=
    if gtb originalTotal' 0 then (saved' / originalTotal') * 100 else 0 in
  let allCompressed' := forallb isFinished images in
  {| originalTotal := toFixed1 originalTotal';
     compressedTotal := toFixed1 compressedTotal';
     saved := if gtb saved' 0 then toFixed1 saved' else "0.0";
     ratio := if gtb ratio' 0 then toFixed1 ratio' else "0.0";
     allCompressed := allCompressed' && Nat.ltb 0 (List.length images) |}.

(** [globalStats] with the host's [toFixed(1)] as a parameter [show]. *)
Definition globalStatsWith (show : Q -> string)
    (images : list ImageCompressionState) : GlobalStats :=
  let originalTotal' := sumOriginal images in
  let compressedTotal' := sumCompressed images in
  let saved' := originalTotal' - compressedTotal' in
  let ratio' :=
    if gtb originalTotal' 0 then (saved' / originalTotal') * 100 else 0 in
  let allCompressed' := forallb isFinished images in
  {| originalTotal := show originalTotal';
     compressedTotal := show compressedTotal';
     saved := if gtb saved' 0 then show saved' else "0.0";
     ratio := if gtb ratio' 0 then show ratio' else "0.0";
     allCompressed := allCompressed' && Nat.ltb 0 (List.length images) |}.

(** *** Download names and the archive *)

(** [name.replace(/\.[^/.]+$/, "")] read from the end of the name: the
    expression matches when a dot is met after at least one character and
    before any slash; [seen] counts the characters passed. *)
Fixpoint ext_scan (rev_chars : list ascii) (seen : nat) : option (list ascii) :=
  match rev_chars with
  | [] => None
  | c :: rest =>
      if Ascii.eqb c "." then
        match seen with O => None | S _ => Some rest end
      else if Ascii.eqb c "/" then None
      else ext_scan rest (S seen)
  end.

Definition stripExtension (fileName : string) : string :=
  match ext_scan (rev (list_ascii_of_string fileName)) 0 with
  | Some rev_base => string_of_list_ascii (rev rev_base)
  | None => fileName
  end.

(** [`${originalName}_Q${quality}.jpg`]. *)
Definition entryName (img : ImageCompressionState) (quality : N) : string :=
  (stripExtension (name (file img)) ++ "_Q" ++ string_of_N quality ++ ".jpg")%string.

Definition archiveName (quality : N) : string :=
  ("compressed_images_Q" ++ string_of_N quality ++ ".zip")%string.

(** [zip.file(fileName, data, { base64: true })] of the zip library on the
    entries it holds: the library keeps one entry for a name, so a name it
    already has gets the new content in its place and a new name goes to the
    end.  (File names are base names; the folder entries the library makes
    for a name with a slash are not entries of records and are left out.) *)
Fixpoint zipFile (fileName : string) (data : option string)
    (files : list (string * option string)) : list (string * option string) :=
  match files with
  | [] => [(fileName, data)]
  | (n, d) :: rest =>
      if String.eqb n fileName then (fileName, data) :: rest
      else (n, d) :: zipFile fileName data rest
  end.

(** The archive that a run of [zip.file] calls leaves, from [new JSZip()]. *)
Definition zipArchive (calls : list (string * option string))
  : list (string * option string) :=
  fold_left (fun files call => zipFile (fst call) (snd call) files) calls [].

(** The calls [zip.file(fileName, base64, { base64: true })] that the
    [forEach] makes, in order: entry name and payload ([None] is
    [undefined]).  These are the calls, not yet the archive. *)
Definition zipEntries (images : list ImageCompressionState) (quality : N)
  : list (string * option string) :=
  flat_map
    (fun img =>
       match compressedSrc img with
       | Some src =>
           if truthy (Some src)
           then [(entryName img quality, nth_error (split "," src) 1)]
           else []
       | None => []
       end)
    images.

Inductive DownloadOutcome : Type :=
| AlertShown (message : string)
| ZipDownloaded (download : string) (archive : list (string * option string)).

(** *** State of the component and of the work it has handed out *)

Record ReadTask := {
  read_id : string;
  read_file : File;
  read_quality : N;            (* [quality] captured by the callback *)
  read_started : bool          (* [onloadstart] has fired *)
}.

Record EncodeTask := {
  task_id : string;
  task_src : string;
  task_quality : N
}.

Record State := {
  images : list ImageCompressionState;
  quality : N;
  readers : list ReadTask;       (* [FileReader]s at work *)
  timers : list EncodeTask;      (* [setTimeout(..., 50)] not yet fired *)
  decoding : list EncodeTask     (* [Image]s loading inside [compressImage] *)
}.

Definition init : State :=
  {| images := []; quality := 70%N; readers := []; timers := []; decoding := [] |}.

Definition with_images (imgs : list ImageCompressionState) (s : State) : State :=
  {| images := imgs; quality := quality s; readers := readers s;
     timers := timers s; decoding := decoding s |}.

(** [compressImage(imgId, src, qualityPercent)]: the entry update, and an
    image left loading. *)
Definition compressImage (imgId src : string) (qualityPercent : N) (s : State)
  : State :=
  {| images := compress_begin imgId (images s);
     quality := quality s; readers := readers s; timers := timers s;
     decoding := decoding s ++
       [{| task_id := imgId; task_src := src; task_quality := qualityPercent |}] |}.

Definition readTask (q : N) (img : ImageCompressionState) : ReadTask :=
  {| read_id := id img; read_file := file img; read_quality := q;
     read_started := false |}.

Definition handleFileProcessing (randomUUID : nat -> string)
    (fileList : list File) (s : State) : State :=
  let newImages := acceptedImages (images s) randomUUID fileList in
  {| images := images s ++ newImages;
     quality := quality s;
     readers := readers s ++ map (readTask (quality s)) newImages;
     timers := timers s; decoding := decoding s |}.

(** [img.originalSrc] is truthy: the file has been read. *)
Definition hasOriginal (img : ImageCompressionState) : bool :=
  truthy (Some (originalSrc img)).

(** The call of [compressImage] that a task stands for. *)
Definition runCall (t : EncodeTask) (s : State) : State :=
  compressImage (task_id t) (task_src t) (task_quality t) s.

(** [handleQualityChange] with [newQuality = Number(e.target.value)].  The
    [isProcessingAll] flag only drives a spinner and is left out. *)
Definition handleQualityChange (newQuality : N) (s : State) : State :=
  let s1 := {| images := images s; quality := newQuality; readers := readers s;
               timers := timers s; decoding := decoding s |} in
  if Nat.ltb 0 (List.length (images s)) then
    let s2 :=
      match images s with
      | previewImage :: _ =>
          if truthy (Some (originalSrc previewImage))
          then compressImage (id previewImage) (originalSrc previewImage)
                             newQuality s1
          else s1
      | [] => s1
      end in
    {| images := images s2; quality := quality s2; readers := readers s2;
       timers := timers s2 ++
         flat_map (fun img =>
                     if truthy (Some (originalSrc img))
                     then [{| task_id := id img; task_src := originalSrc img;
                              task_quality := newQuality |}]
                     else [])
                  (tl (images s));
       decoding := decoding s2 |}
  else s1.

(** [handleBatchDownload], the import of the zip library and the generation
    of the blob taken to succeed (their failure ends in another alert). *)
Definition handleBatchDownload (s : State) : DownloadOutcome :=
  if negb (allCompressed (globalStats (images s))) then
    AlertShown "Please wait for all images to finish compressing."
  else
    ZipDownloaded (archiveName (quality s))
                  (zipArchive (zipEntries (images s) (quality s))).

(** What [FileReader.readAsDataURL] and [canvas.toDataURL] hand back is a
    [data:] URL. *)
Definition isDataURL (s : string) : bool := startsWith s "data:".

(** One step: a user action, or the completion of handed-out work. *)
Inductive step : State -> State -> Prop :=
| step_files (s : State) (randomUUID : nat -> string) (fileList : list File) :
    (* identifiers from [crypto.randomUUID()] do not repeat *)
    NoDup (map id (images s ++ acceptedImages (images s) randomUUID fileList)) ->
    step s (handleFileProcessing randomUUID fileList s)
| step_reader_loadstart (s : State) (before after : list ReadTask) (r : ReadTask) :
    readers s = before ++ r :: after ->
    read_started r = false ->
    step s {| images := reader_loadstart (read_id r) (images s);
              quality := quality s;
              readers := before ++
                {| read_id := read_id r; read_file := read_file r;
                   read_quality := read_quality r; read_started := true |} :: after;
              timers := timers s; decoding := decoding s |}
| step_reader_load (s : State) (before after : list ReadTask) (r : ReadTask)
    (src : string) :
    readers s = before ++ r :: after ->
    read_started r = true ->
    isDataURL src = true ->
    step s (compressImage (read_id r) src (read_quality r)
              {| images := reader_load (read_id r) src (images s);
                 quality := quality s; readers := before ++ after;
                 timers := timers s; decoding := decoding s |})
| step_reader_error (s : State) (before after : list ReadTask) (r : ReadTask) :
    readers s = before ++ r :: after ->
    read_started r = true ->
    step s {| images := reader_error (read_id r) (images s);
              quality := quality s; readers := before ++ after;
              timers := timers s; decoding := decoding s |}
| step_timer (s : State) (before after : list EncodeTask) (t : EncodeTask) :
    timers s = before ++ t :: after ->
    step s (runCall t
              {| images := images s; quality := quality s; readers := readers s;
                 timers := before ++ after; decoding := decoding s |})
| step_encoded (s : State) (before after : list EncodeTask) (t : EncodeTask)
    (compressedDataURL : string) :
    decoding s = before ++ t :: after ->
    isDataURL compressedDataURL = true ->
    step s {| images := compress_done (task_id t) compressedDataURL (images s);
              quality := quality s; readers := readers s; timers := timers s;
              decoding := before ++ after |}
| step_canvas_error (s : State) (before after : list EncodeTask) (t : EncodeTask) :
    decoding s = before ++ t :: after ->
    step s {| images := compress_canvas_error (task_id t) (images s);
              quality := quality s; readers := readers s; timers := timers s;
              decoding := before ++ after |}
| step_load_error (s : State) (before after : list EncodeTask) (t : EncodeTask) :
    decoding s = before ++ t :: after ->
    step s {| images := compress_load_error (task_id t) (images s);
              quality := quality s; readers := readers s; timers := timers s;
              decoding := before ++ after |}
| step_quality (s : State) (newQuality : N) :
    step s (handleQualityChange newQuality s)
| step_remove (s : State) (i : string) :
    step s (with_images (handleRemoveImage i (images s)) s)
| step_reset (s : State) :
    step s (with_images [] s).

Inductive reachable : State -> Prop :=
| reach_init : reachable init
| reach_step (s s' : State) : reachable s -> step s s' -> reachable s'.

End Model.

(* ========================================================================= *)
(** ** The reference definitions of the specification *)
(* ========================================================================= *)

Module Spec.

Import Host Num Model.

Inductive Status : Type := Loading | Compressing | Ready | Errored.

(** The status of a record, read off the fields of the component: a record
    is at work while [isCompressing] is set (still [Loading] as long as the
    original has not been read); at rest it is [Errored] with an error
    message, [Ready] with a compressed result, and otherwise the record as
    created, which has not started. *)
Definition status (img : ImageCompressionState) : Status :=
  if isCompressing img then
    (if hasOriginal img then Compressing else Loading)
  else if truthy (error img) then Errored
  else if truthy (compressedSrc img) then Ready
  else Loading.





Definition totalBudgetKB : Q := 51200.

End Spec.

(* ========================================================================= *)
(** ** Notions used in the statements *)
(* ========================================================================= *)

Import Host Num Model.

(** [l.reduce((sum, x) => sum + weight(x), 0)]. *)
Definition total {A : Type} (weight : A -> Q) (l : list A) : Q :=
  fold_left (fun sum x => sum + weight x) l 0.

(** [MAX_TOTAL_SIZE_MB * 1024], the bound of the loop, in KB. *)
Definition budget : Q := MAX_TOTAL_SIZE_MB * 1024.

(** No size is negative and the sizes fit the budget. *)
Definition within_budget (imgs : list ImageCompressionState) : Prop :=
  Forall (fun img => 0 <= originalSize img) imgs /\ sumOriginal imgs <= budget.

(** The sizes of a run of files, as the loop adds them to [totalSize]. *)
Definition filesKB (files : list File) : Q := total sizeInKB files.

(** The compressed size of a record is the estimate of its compressed
    source, and nothing without one. *)
Definition size_matches (img : ImageCompressionState) : Prop :=
  match compressedSrc img with
  | None => compressedSize img = 0
  | Some src =>
      isDataURL src = true /\
      getFileSizeFromDataURL src = Returns (compressedSize img)
  end.

(** [s.includes(c)] for a character. *)
Fixpoint contains (c : ascii) (s : string) : bool :=
  match s with
  | EmptyString => false
  | String d rest => Ascii.eqb d c || contains c rest
  end.

(** Bytes that come out of [n] base64 characters. *)
Definition decodedLength (n : nat) : nat :=
  (3 * (n / 4) + match n mod 4 with 2 => 1 | 3 => 2 | _ => 0 end)%nat.

(** [Number((n / 1024).toFixed(2))] for a count of bytes. *)
Definition kbOfBytes (n : nat) : Q := round2 (inject_Z (Z.of_nat n) / 1024).

(** [new] is [old] later on, with its compressed result kept if it had one. *)
Definition keeps_preview (old new : ImageCompressionState) : Prop :=
  id new = id old /\ (compressedSrc old <> None -> compressedSrc new <> None).

(** How a failed attempt with message [msg] relates a record to its
    successor. *)
Definition after_failure (i msg : string) (old new : ImageCompressionState)
  : Prop :=
  compressedSrc new = compressedSrc old /\
  compressedSize new = compressedSize old /\
  (id old = i -> error new = Some msg /\ isCompressing new = false) /\
  (id old <> i -> new = old).

(** ... and how the start of an attempt does. *)
Definition after_begin (i : string) (old new : ImageCompressionState) : Prop :=
  compressedSrc new = compressedSrc old /\
  compressedSize new = compressedSize old /\
  (id old = i -> error new = None /\ isCompressing new = true) /\
  (id old <> i -> new = old).

(** The call [compressImage(img.id, img.originalSrc, q)] as a task. *)
Definition encodeTask (q : N) (img : ImageCompressionState) : EncodeTask :=
  {| task_id := id img; task_src := originalSrc img; task_quality := q |}.

(** A record on entry to [compressImage]. *)
Definition begun (img : ImageCompressionState) : ImageCompressionState :=
  set_error None (set_compressing true img).

(** ... when it has its original, and the record itself otherwise. *)
Definition beginIfOriginal (img : ImageCompressionState) :=
  if hasOriginal img then begun img else img.

(** Runs of the machine. *)
Inductive run : State -> State -> Prop :=
| run_done (s : State) : run s s
| run_step (s s' s'' : State) : step s s' -> run s' s'' -> run s s''.

(** The entry updates of [compressImage] for the identifiers [ids] in turn. *)
Definition beginAll (ids : list string) (imgs : list ImageCompressionState) :=
  fold_left (fun l i => compress_begin i l) ids imgs.



(** A record made to refer to the file [f]. *)
Definition with_file (f : File) (img : ImageCompressionState) :=
  {| id := id img; file := f; originalSize := originalSize img;
     originalSrc := originalSrc img; compressedSrc := compressedSrc img;
     compressedSize := compressedSize img; isCompressing := isCompressing img;
     error := error img |}.

(** [file.type.startsWith('image/')]. *)
Definition declaredImage (f : File) : bool := startsWith (type f) "image/".

(* ========================================================================= *)
(** ** Sample runs *)
(* ========================================================================= *)

Module Scenario.

Definition uuid0 (k : nat) : string :=
  ("img-" ++ string_of_N (N.of_nat k))%string.

(** A picture of 1000 KB. *)
Definition photo : File :=
  {| name := "photo.png"; type := "image/png"; size := 1024000; content := [] |}.

(** A text file of exactly 50 MB, and an empty one of the same name. *)
Definition notes_big : File :=
  {| name := "notes.txt"; type := "text/plain"; size := 52428800; content := [] |}.

Definition notes_empty : File :=
  {| name := "notes.txt"; type := "text/plain"; size := 0; content := [] |}.

(** A picture of 60 MB. *)
Definition poster : File :=
  {| name := "poster.jpg"; type := "image/jpeg"; size := 62914560; content := [] |}.

Definition original_url : string := "data:image/png;base64,iVBORw0KGgo=".

(** What [canvas.toDataURL] returns for a canvas without pixels. *)
Definition blank_url : string := "data:,".

(** Three bytes of payload. *)
Definition tiny_url : string := "data:image/jpeg;base64,AAAA".

Definition reader0 (started : bool) : ReadTask :=
  {| read_id := uuid0 0; read_file := photo; read_quality := 70;
     read_started := started |}.

Definition task0 (q : N) : EncodeTask :=
  {| task_id := uuid0 0; task_src := original_url; task_quality := q |}.

(** [photo] dropped on the empty component. *)
Definition dropped : State := handleFileProcessing uuid0 [photo] init.

(** ... and read, its first compression under way. *)
Definition compressing : State :=
  {| images :=
       [{| id := uuid0 0; file := photo; originalSize := sizeInKB photo;
           originalSrc := original_url; compressedSrc := None;
           compressedSize := 0; isCompressing := true; error := None |}];
     quality := 70; readers := []; timers := []; decoding := [task0 70] |}.

(** The record of [photo] once compressed to [url], of estimated size [sz]. *)
Definition photo_record (url : string) (sz : Q) : ImageCompressionState :=
  {| id := uuid0 0; file := photo; originalSize := sizeInKB photo;
     originalSrc := original_url; compressedSrc := Some url;
     compressedSize := sz; isCompressing := false; error := None |}.

(** ... and compressed to [url]. *)
Definition compressed (url : string) (sz : Q) : State :=
  {| images := [photo_record url sz];
     quality := 70; readers := []; timers := []; decoding := [] |}.






(** A text passed off as a picture, what the reader hands over for a file of
    that content, and a decoder that takes nothing. *)
Definition fake : File :=
  {| name := "fake.png"; type := "image/png"; size := 2; content := [104; 105]%N |}.

Definition readAsDataURL0 (x : File) : string :=
  ("data:" ++ type x ++ ";base64,aGk=")%string.

Definition decodesNothing (src : string) : bool := false.

(** [fake] dropped, read and refused by the decoder. *)
Definition refused : State :=
  {| images :=
       [{| id := uuid0 0; file := fake; originalSize := sizeInKB fake;
           originalSrc := readAsDataURL0 fake; compressedSrc := None;
           compressedSize := 0; isCompressing := false;
           error := Some "Image load failed." |}];
     quality := 70; readers := []; timers := []; decoding := [] |}.

End Scenario.

Import Scenario.

(** [c.repeat(n)]. *)
Fixpoint repeat_char (c : ascii) (n : nat) : string :=
  match n with
  | O => EmptyString
  | S k => String c (repeat_char c k)
  end.

(* ========================================================================= *)
(** ** The updates of a record, and the single-image component *)
(* ========================================================================= *)

(** The seven [setImages(prev => prev.map(...))] of the batch component. *)
Inductive Update : Type :=
| Begin                                   (* entry of [compressImage] *)
| Encoded (compressedDataURL : string)    (* [onload], with a context *)
| CanvasFailed                            (* [onload], without one *)
| LoadFailed                              (* [onerror] of the image *)
| ReadStarted                             (* [reader.onloadstart] *)
| ReadDone (src : string)                 (* [reader.onload] *)
| ReadFailed.                             (* [reader.onerror] *)

Definition applyUpdate (i : string) (u : Update)
    (prev : list ImageCompressionState) : list ImageCompressionState :=
  match u with
  | Begin => compress_begin i prev
  | Encoded url => compress_done i url prev
  | CanvasFailed => compress_canvas_error i prev
  | LoadFailed => compress_load_error i prev
  | ReadStarted => reader_loadstart i prev
  | ReadDone src => reader_load i src prev
  | ReadFailed => reader_error i prev
  end.

(** The budget alert for the file at which the loop stopped, if any. *)
Definition budgetAlert (stopped : option File) : list string :=
  match stopped with
  | Some f => [alert_budget f]
  | None => []
  end.

(** [totalSize] after the loop has passed over [files]. *)
Definition totalAfter (tot : Q) (files : list File) : Q :=
  fold_left (fun t f => t + sizeInKB f) files tot.

(** The records of files that are all taken, numbered from [from]. *)
Fixpoint recordsOf (randomUUID : nat -> string) (from : nat) (files : list File)
  : list ImageCompressionState :=
  match files with
  | [] => []
  | f :: rest => newImage (randomUUID from) f :: recordsOf randomUUID (S from) rest
  end.

(** A reader or an image decode is at work for the identifier [i]. *)
Definition pendingFor (i : string) (s : State) : Prop :=
  (exists r, In r (readers s) /\ read_id r = i) \/
  (exists t, In t (decoding s) /\ task_id t = i).

(** Every record is finished or has a reader or a decode at work for it. *)
Definition settledOrPending (s : State) : Prop :=
  forall img, In img (images s) ->
    isFinished img = true \/ pendingFor (id img) s.

(** The reduction shown in a row of the queue:
    [saved = originalSize - compressedSize] and
    [ratio = originalSize > 0 ? (saved / originalSize) * 100 : 0]. *)
Definition rowRatio (img : ImageCompressionState) : Q :=
  let saved := originalSize img - compressedSize img in
  if gtb (originalSize img) 0 then (saved / originalSize img) * 100 else 0.

(** [ratio.toFixed(1)], as the row prints it. *)
Definition rowRatioText (img : ImageCompressionState) : string :=
  toFixed1 (rowRatio img).

(** The single-image component [ImageCompressor] of [app/page.tsx]. *)
Module Single.

(** Its [useState] cells, and the work handed to the browser: the quality
    captured by each [FileReader] at work, and the source and quality of
    each image loading inside [compressImage]. *)
Record State := {
  imageSrc : option string;
  compressedSrc : option string;
  quality : N;
  originalSize : Q;
  compressedSize : Q;
  isCompressing : bool;
  readers : list N;
  decoding : list (string * N)
}.

Definition init : State :=
  {| imageSrc := None; compressedSrc := None; quality := 70%N;
     originalSize := 0; compressedSize := 0; isCompressing := false;
     readers := []; decoding := [] |}.

(** [Math.round(x)]: the nearest integer, ties upwards. *)
Definition mathRound (x : Q) : Q := inject_Z (Qfloor (x + (1 # 2))).

(** [Math.round((compressed.length * 3) / 4 / 1024)]. *)
Definition fileSizeOf (compressed : string) : Q :=
  mathRound (inject_Z (Z.of_nat (String.length compressed)) * 3 / 4 / 1024).

(** [compressImage(src, qualityPercent)]: an image left loading. *)
Definition compressImage (src : string) (qualityPercent : N) (s : State) : State :=
  {| imageSrc := imageSrc s; compressedSrc := compressedSrc s;
     quality := quality s; originalSize := originalSize s;
     compressedSize := compressedSize s; isCompressing := isCompressing s;
     readers := readers s; decoding := decoding s ++ [(src, qualityPercent)] |}.

(** [handleFile] on [e.target.files[0]]: the state, and the alert if any. *)
Definition handleFile (file0 : option File) (s : State) : State * option string :=
  match file0 with
  | None => (s, None)
  | Some f =>
      if negb (startsWith (type f) "image/") then
        (s, Some "Please select an image file")
      else
        ({| imageSrc := imageSrc s; compressedSrc := compressedSrc s;
            quality := quality s;
            originalSize := round2 (inject_Z (Z.of_N (size f)) / 1024);
            compressedSize := compressedSize s; isCompressing := true;
            readers := readers s ++ [quality s]; decoding := decoding s |},
         None)
  end.

(** [reader.onload] of a reader that captured the quality [q]. *)
Definition readerLoaded (result : string) (q : N) (s : State) : State :=
  compressImage result q
    {| imageSrc := Some result; compressedSrc := compressedSrc s;
       quality := quality s; originalSize := originalSize s;
       compressedSize := compressedSize s; isCompressing := isCompressing s;
       readers := readers s; decoding := decoding s |}.

(** [img.onload] inside [compressImage]; the 2d context is taken to exist,
    as the component asserts it. *)
Definition imageEncoded (compressed : string) (s : State) : State :=
  {| imageSrc := imageSrc s; compressedSrc := Some compressed;
     quality := quality s; originalSize := originalSize s;
     compressedSize := fileSizeOf compressed; isCompressing := false;
     readers := readers s; decoding := decoding s |}.

(** [img.onerror] inside [compressImage] (it also alerts). *)
Definition imageFailed (s : State) : State :=
  {| imageSrc := imageSrc s; compressedSrc := compressedSrc s;
     quality := quality s; originalSize := originalSize s;
     compressedSize := compressedSize s; isCompressing := false;
     readers := readers s; decoding := decoding s |}.

(** The [onChange] of the quality slider. *)
Definition qualityChanged (newQuality : N) (s : State) : State :=
  let s1 := {| imageSrc := imageSrc s; compressedSrc := compressedSrc s;
               quality := newQuality; originalSize := originalSize s;
               compressedSize := compressedSize s;
               isCompressing := isCompressing s;
               readers := readers s; decoding := decoding s |} in
  match imageSrc s with
  | Some src =>
      if truthy (Some src) then
        compressImage src newQuality
          {| imageSrc := imageSrc s1; compressedSrc := compressedSrc s1;
             quality := quality s1; originalSize := originalSize s1;
             compressedSize := compressedSize s1; isCompressing := true;
             readers := readers s1; decoding := decoding s1 |}
      else s1
  | None => s1
  end.

Definition with_work (rs : list N) (ds : list (string * N)) (s : State) : State :=
  {| imageSrc := imageSrc s; compressedSrc := compressedSrc s;
     quality := quality s; originalSize := originalSize s;
     compressedSize := compressedSize s; isCompressing := isCompressing s;
     readers := rs; decoding := ds |}.

(** One step: a user action, or the completion of handed-out work. *)
Inductive step : State -> State -> Prop :=
| step_file (s : State) (file0 : option File) :
    step s (fst (handleFile file0 s))
| step_reader_load (s : State) (before after : list N) (q : N) (result : string) :
    readers s = before ++ q :: after ->
    isDataURL result = true ->
    step s (readerLoaded result q (with_work (before ++ after) (decoding s) s))
| step_encoded (s : State) (before after : list (string * N)) (t : string * N)
    (compressed : string) :
    decoding s = before ++ t :: after ->
    isDataURL compressed = true ->
    step s (imageEncoded compressed (with_work (readers s) (before ++ after) s))
| step_failed (s : State) (before after : list (string * N)) (t : string * N) :
    decoding s = before ++ t :: after ->
    step s (imageFailed (with_work (readers s) (before ++ after) s))
| step_quality (s : State) (newQuality : N) :
    step s (qualityChanged newQuality s).

Inductive reachable : State -> Prop :=
| reach_init : reachable init
| reach_step (s s' : State) : reachable s -> step s s' -> reachable s'.

End Single.

(* ========================================================================= *)
(** ** The browser's side of a record *)
(* ========================================================================= *)

(** What a file holds reaches the component through two operations of the
    browser only: [FileReader.readAsDataURL], whose result is handed to
    [reader.onload], and the decoding of that source by the [Image] of
    [compressImage], which ends in [img.onload] when the browser can decode
    the source and in [img.onerror] when it cannot.  [Browser.step] is
    [Model.step] with the two fixed as [readAsDataURL] and [decodes], and
    with the identifiers of [crypto.randomUUID()] new also against the
    readers, timers and decodes still at work. *)
Module Browser.

Section Host.

Variable readAsDataURL : File -> string.
Variable decodes : string -> bool.

(** The identifiers of the work handed out and not yet completed. *)
Definition workIds (s : State) : list string :=
  map read_id (readers s) ++ map task_id (timers s ++ decoding s).

Inductive step : State -> State -> Prop :=
| on_files (s : State) (randomUUID : nat -> string) (fileList : list File) :
    NoDup (map id (images s ++ acceptedImages (images s) randomUUID fileList)) ->
    (forall img, In img (acceptedImages (images s) randomUUID fileList) ->
                 ~ In (id img) (workIds s)) ->
    step s (handleFileProcessing randomUUID fileList s)
| on_loadstart (s : State) (before after : list ReadTask) (r : ReadTask) :
    readers s = before ++ r :: after ->
    read_started r = false ->
    step s {| images := reader_loadstart (read_id r) (images s);
              quality := quality s;
              readers := before ++
                {| read_id := read_id r; read_file := read_file r;
                   read_quality := read_quality r; read_started := true |} :: after;
              timers := timers s; decoding := decoding s |}
| on_load (s : State) (before after : list ReadTask) (r : ReadTask) :
    readers s = before ++ r :: after ->
    read_started r = true ->
    isDataURL (readAsDataURL (read_file r)) = true ->
    step s (compressImage (read_id r) (readAsDataURL (read_file r))
              (read_quality r)
              {| images := reader_load (read_id r)
                             (readAsDataURL (read_file r)) (images s);
                 quality := quality s; readers := before ++ after;
                 timers := timers s; decoding := decoding s |})
| on_read_error (s : State) (before after : list ReadTask) (r : ReadTask) :
    readers s = before ++ r :: after ->
    read_started r = true ->
    step s {| images := reader_error (read_id r) (images s);
              quality := quality s; readers := before ++ after;
              timers := timers s; decoding := decoding s |}
| on_timer (s : State) (before after : list EncodeTask) (t : EncodeTask) :
    timers s = before ++ t :: after ->
    step s (runCall t
              {| images := images s; quality := quality s; readers := readers s;
                 timers := before ++ after; decoding := decoding s |})
| on_encoded (s : State) (before after : list EncodeTask) (t : EncodeTask)
    (compressedDataURL : string) :
    decoding s = before ++ t :: after ->
    decodes (task_src t) = true ->
    isDataURL compressedDataURL = true ->
    step s {| images := compress_done (task_id t) compressedDataURL (images s);
              quality := quality s; readers := readers s; timers := timers s;
              decoding := before ++ after |}
| on_canvas_error (s : State) (before after : list EncodeTask) (t : EncodeTask) :
    decoding s = before ++ t :: after ->
    decodes (task_src t) = true ->
    step s {| images := compress_canvas_error (task_id t) (images s);
              quality := quality s; readers := readers s; timers := timers s;
              decoding := before ++ after |}
| on_load_error (s : State) (before after : list EncodeTask) (t : EncodeTask) :
    decoding s = before ++ t :: after ->
    decodes (task_src t) = false ->
    step s {| images := compress_load_error (task_id t) (images s);
              quality := quality s; readers := readers s; timers := timers s;
              decoding := before ++ after |}
| on_quality (s : State) (newQuality : N) :
    step s (handleQualityChange newQuality s)
| on_remove (s : State) (i : string) :
    step s (with_images (handleRemoveImage i (images s)) s)
| on_reset (s : State) :
    step s (with_images [] s).

Inductive reachable : State -> Prop :=
| reach_init : reachable init
| reach_step (s s' : State) : reachable s -> step s s' -> reachable s'.

Inductive run : State -> State -> Prop :=
| run_done (s : State) : run s s
| run_step (s s' s'' : State) : step s s' -> run s' s'' -> run s s''.

(** What ties a record to its file and to the work at hand for it: its
    original is the file as read, if read at all; a preview only comes from
    a source the browser decodes; once read, a file the browser cannot
    decode leaves no message but that of [img.onerror]; a reader at work
    for the record reads its file and has not delivered; a call of
    [compressImage] at work for it is on its file as read. *)
Definition recordSound (s : State) (img : ImageCompressionState) : Prop :=
  (originalSrc img = "" \/ originalSrc img = readAsDataURL (file img)) /\
  (compressedSrc img <> None -> decodes (readAsDataURL (file img)) = true) /\
  (hasOriginal img = true -> decodes (readAsDataURL (file img)) = false ->
   error img = None \/ error img = Some "Image load failed.") /\
  (forall r, In r (readers s) -> read_id r = id img ->
     read_file r = file img /\ originalSrc img = "") /\
  (forall t, In t (timers s ++ decoding s) -> task_id t = id img ->
     task_src t = readAsDataURL (file img)).

Definition sound (s : State) : Prop :=
  NoDup (map read_id (readers s)) /\
  forall img, In img (images s) -> recordSound s img.

End Host.

End Browser.

(* ========================================================================= *)
(** ** Numbers and sums *)
(* ========================================================================= *)

Lemma gtb_true (a b : Q) : gtb a b = true <-> b < a.
Proof.
  unfold gtb. rewrite negb_true_iff. split; intro H.
  - apply Qnot_le_lt. intro Hle. apply Qle_bool_iff in Hle. congruence.
  - destruct (Qle_bool a b) eqn:E; [|reflexivity].
    apply Qle_bool_iff in E. exfalso. apply (Qlt_not_le _ _ H E).
Qed.

Lemma gtb_false (a b : Q) : gtb a b = false <-> a <= b.
Proof.
  unfold gtb. rewrite negb_false_iff. apply Qle_bool_iff.
Qed.

Lemma gtb_compat (a a' b : Q) : a == a' -> gtb a b = gtb a' b.
Proof.
  intro E. destruct (gtb a b) eqn:G, (gtb a' b) eqn:G'; try reflexivity.
  - apply gtb_true in G. apply gtb_false in G'. lra.
  - apply gtb_false in G. apply gtb_true in G'. lra.
Qed.


Lemma round2_nonneg (x : Q) : 0 <= x -> 0 <= round2 x.
Proof.
  intro Hx. unfold round2.
  assert (H0 : (0 <= Qfloor (x * 100 + (1 # 2)))%Z).
  { change 0%Z with (Qfloor 0). apply Qfloor_resp_le. lra. }
  assert (H1 : 0 <= inject_Z (Qfloor (x * 100 + (1 # 2)))).
  { change 0 with (inject_Z 0). rewrite <- Zle_Qle. exact H0. }
  apply Qle_shift_div_l; lra.
Qed.

Lemma sizeInKB_nonneg (f : File) : 0 <= sizeInKB f.
Proof.
  unfold sizeInKB. apply round2_nonneg.
  apply Qle_shift_div_l; [reflexivity|].
  rewrite Qmult_0_l. change 0 with (inject_Z 0). rewrite <- Zle_Qle. lia.
Qed.

Section Sums.

Context {A : Type}.
Variable weight : A -> Q.

Lemma fold_total_from (l : list A) (a : Q) :
  fold_left (fun sum img => sum + weight img) l a == a + total weight l.
Proof.
  unfold total. revert a.
  induction l as [|x l IH]; intro a; simpl.
  - lra.
  - rewrite (IH (a + weight x)), (IH (0 + weight x)). lra.
Qed.

Lemma total_cons (x : A) (l : list A) :
  total weight (x :: l) == weight x + total weight l.
Proof.
  unfold total at 1. simpl. rewrite fold_total_from. lra.
Qed.

Lemma total_app (l1 l2 : list A) :
  total weight (l1 ++ l2) == total weight l1 + total weight l2.
Proof.
  induction l1 as [|x l1 IH]; simpl.
  - unfold total at 2. simpl. lra.
  - rewrite !total_cons, IH. lra.
Qed.

Lemma total_nonneg (l : list A) :
  Forall (fun img => 0 <= weight img) l -> 0 <= total weight l.
Proof.
  induction 1 as [|x l Hx _ IH].
  - unfold total. simpl. lra.
  - pose proof (total_cons x l). lra.
Qed.

Lemma total_filter_le (p : A -> bool)
    (l : list A) :
  Forall (fun img => 0 <= weight img) l -> total weight (filter p l) <= total weight l.
Proof.
  induction 1 as [|x l Hx _ IH]; simpl.
  - lra.
  - pose proof (total_cons x l) as E1.
    pose proof (total_cons x (filter p l)) as E2.
    destruct (p x); lra.
Qed.

End Sums.

Lemma sumOriginal_app (l1 l2 : list ImageCompressionState) :
  sumOriginal (l1 ++ l2) == sumOriginal l1 + sumOriginal l2.
Proof. exact (total_app originalSize l1 l2). Qed.

Lemma sumOriginal_cons (x : ImageCompressionState) l :
  sumOriginal (x :: l) == originalSize x + sumOriginal l.
Proof. exact (total_cons originalSize x l). Qed.

Lemma sumOriginal_nonneg (l : list ImageCompressionState) :
  Forall (fun img => 0 <= originalSize img) l -> 0 <= sumOriginal l.
Proof. exact (total_nonneg originalSize l). Qed.

Lemma sumOriginal_filter_le p (l : list ImageCompressionState) :
  Forall (fun img => 0 <= originalSize img) l ->
  sumOriginal (filter p l) <= sumOriginal l.
Proof. exact (total_filter_le originalSize p l). Qed.


(* ========================================================================= *)
(** ** The host functions at work *)
(* ========================================================================= *)

Example split_data_url :
  split "," "data:image/jpeg;base64,AAAA" = ["data:image/jpeg;base64"; "AAAA"].
Proof. reflexivity. Qed.

Example split_blank_url : split "," blank_url = ["data:"; ""].
Proof. reflexivity. Qed.

Example split_no_comma : nth_error (split "," "plain") 1 = None.
Proof. reflexivity. Qed.

Example atob_padded : atob "aGk=" = Some "hi".
Proof. reflexivity. Qed.

Example atob_spaced : atob "aG k" = Some "hi".
Proof. reflexivity. Qed.

Example atob_bad_length : atob "a" = None.
Proof. reflexivity. Qed.

Example atob_bad_character : atob "@@@@" = None.
Proof. reflexivity. Qed.

Example toFixed1_rounds : toFixed1 (1234 # 100) = "12.3" /\ toFixed1 (1236 # 100) = "12.4".
Proof. split; reflexivity. Qed.

Example toFixed1_of_zero : toFixed1 0 = "0.0".
Proof. reflexivity. Qed.

Example toFixed1_negative : toFixed1 (- (1 # 100)) = "-0.0".
Proof. reflexivity. Qed.

Example sizeInKB_photo : sizeInKB photo == 1000.
Proof. reflexivity. Qed.

Example sizeInKB_rounds :
  sizeInKB {| name := "a"; type := "image/png"; size := 1029; content := [] |}
  == 1 /\
  sizeInKB {| name := "a"; type := "image/png"; size := 1030; content := [] |}
  == 101 # 100.
Proof. split; reflexivity. Qed.

Example stripExtension_samples :
  stripExtension "photo.png" = "photo" /\
  stripExtension "archive.tar.gz" = "archive.tar" /\
  stripExtension "README" = "README" /\
  stripExtension ".gitignore" = "" /\
  stripExtension "a." = "a." /\
  stripExtension "dir.v/file" = "dir.v/file".
Proof. repeat split; reflexivity. Qed.

Example estimate_three_kilobytes :
  exists kb,
    getFileSizeFromDataURL
      ("data:image/jpeg;base64," ++ repeat_char "A" 4096)%string = Returns kb /\
    kb == 3.
Proof. eexists. split; [vm_compute; reflexivity | reflexivity]. Qed.

Example estimate_blank : getFileSizeFromDataURL blank_url = Returns 0.
Proof. reflexivity. Qed.

Example stats_of_blank :
  globalStats (images (compressed blank_url 0))
  = {| originalTotal := "1000.0"; compressedTotal := "0.0"; saved := "1000.0";
       ratio := "100.0"; allCompressed := true |}.
Proof. vm_compute. reflexivity. Qed.

Example quality_names : entryName (photo_record blank_url 0) 70 = "photo_Q70.jpg".
Proof. reflexivity. Qed.

(* ========================================================================= *)
(** ** The sample runs are runs of the machine *)
(* ========================================================================= *)

Lemma dropped_reachable : reachable dropped.
Proof.
  apply (reach_step init); [apply reach_init|].
  apply (step_files init uuid0 [photo]).
  vm_compute. constructor; [intros [] | constructor].
Qed.

Lemma compressing_reachable : reachable compressing.
Proof.
  pose proof dropped_reachable as R1.
  pose proof (reach_step _ _ R1
    (step_reader_loadstart dropped [] [] (reader0 false) eq_refl eq_refl)) as R2.
  match type of R2 with
  | reachable ?st =>
      exact (reach_step _ _ R2
               (step_reader_load st [] [] (reader0 true) original_url
                  eq_refl eq_refl eq_refl))
  end.
Qed.

Lemma blank_reachable : reachable (compressed blank_url 0).
Proof.
  exact (reach_step _ _ compressing_reachable
    (step_encoded compressing [] [] (task0 70) blank_url eq_refl eq_refl)).
Qed.

(* ========================================================================= *)
(** ** The budget *)
(* ========================================================================= *)

Lemma budget_value : budget == 51200.
Proof. reflexivity. Qed.

Lemma within_budget_nil : within_budget [].
Proof.
  split; [constructor|]. pose proof budget_value.
  change (sumOriginal []) with 0. lra.
Qed.

Lemma sumOriginal_sizes (l : list ImageCompressionState) :
  sumOriginal l = fold_left Qplus (map originalSize l) 0.
Proof.
  unfold sumOriginal. generalize 0.
  induction l as [|x l IH]; intro a; simpl; [reflexivity | apply IH].
Qed.

Lemma within_budget_sizes (l1 l2 : list ImageCompressionState) :
  map originalSize l1 = map originalSize l2 ->
  within_budget l1 -> within_budget l2.
Proof.
  intros E [Hpos Hsum]. split.
  - apply Forall_map with (f := originalSize) (P := fun q => 0 <= q).
    rewrite <- E. apply Forall_map. exact Hpos.
  - rewrite sumOriginal_sizes, <- E, <- sumOriginal_sizes. exact Hsum.
Qed.

Lemma sizes_updateById (i : string)
    (f : ImageCompressionState -> ImageCompressionState)
    (l : list ImageCompressionState) :
  (forall img, originalSize (f img) = originalSize img) ->
  map originalSize (updateById i f l) = map originalSize l.
Proof.
  intro Hf. unfold updateById. rewrite map_map. apply map_ext.
  intro img. destruct (String.eqb (id img) i); [apply Hf | reflexivity].
Qed.

Lemma sizes_compress_begin i l :
  map originalSize (compress_begin i l) = map originalSize l.
Proof. apply sizes_updateById. reflexivity. Qed.

Lemma sizes_compress_done i url l :
  map originalSize (compress_done i url l) = map originalSize l.
Proof.
  unfold compress_done. destruct (getFileSizeFromDataURL url).
  - apply sizes_updateById. reflexivity.
  - reflexivity.
Qed.

Lemma sizes_handleQualityChange q s :
  map originalSize (images (handleQualityChange q s))
  = map originalSize (images s).
Proof.
  unfold handleQualityChange.
  destruct (Nat.ltb 0 (List.length (images s))); [|reflexivity].
  destruct (images s) as [|p rest] eqn:E; simpl; [reflexivity|].
  destruct (negb (String.eqb (originalSrc p) "")).
  - apply (sizes_compress_begin (id p) (p :: rest)).
  - reflexivity.
Qed.

Lemma newImage_size i f : originalSize (newImage i f) = sizeInKB f.
Proof. reflexivity. Qed.

(** Past the budget the loop takes nothing more. *)
Lemma fileLoop_over uuid files acc tot alerts :
  budget < tot -> fst (fileLoop uuid files acc tot alerts) = acc.
Proof.
  revert acc tot alerts.
  induction files as [|f files IH]; intros acc tot alerts Hover; simpl.
  - reflexivity.
  - pose proof (sizeInKB_nonneg f) as Hf.
    destruct (negb (startsWith (type f) "image/")).
    + apply IH. lra.
    + destruct (gtb (tot + sizeInKB f) (MAX_TOTAL_SIZE_MB * 1024)) eqn:G.
      * reflexivity.
      * apply gtb_false in G. fold budget in G. lra.
Qed.

(** The loop keeps [base + sum of newImages <= totalSize], so what it has
    taken when it stops fits the budget together with [base]. *)
Lemma fileLoop_within uuid files : forall acc tot alerts base,
  0 <= base ->
  Forall (fun img => 0 <= originalSize img) acc ->
  base + sumOriginal acc <= tot ->
  base + sumOriginal acc <= budget ->
  let acc' := fst (fileLoop uuid files acc tot alerts) in
  Forall (fun img => 0 <= originalSize img) acc' /\
  base + sumOriginal acc' <= budget.
Proof.
  induction files as [|f files IH]; intros acc tot alerts base Hb Hpos Htot Hbud;
    simpl.
  - split; assumption.
  - pose proof (sizeInKB_nonneg f) as Hf.
    destruct (negb (startsWith (type f) "image/")).
    + apply IH; try assumption. lra.
    + destruct (gtb (tot + sizeInKB f) (MAX_TOTAL_SIZE_MB * 1024)) eqn:G.
      * simpl. split; assumption.
      * apply gtb_false in G. fold budget in G.
        pose proof (sumOriginal_app acc
                      [newImage (uuid (List.length acc)) f]) as Ea.
        pose proof (sumOriginal_cons
                      (newImage (uuid (List.length acc)) f) []) as Ec.
        rewrite newImage_size in Ec.
        change (sumOriginal []) with 0 in Ec.
        apply IH; try assumption.
        -- apply Forall_app. split; [assumption|].
           constructor; [exact Hf | constructor].
        -- lra.
        -- lra.
Qed.

Lemma handleFileProcessing_within uuid files s :
  within_budget (images s) ->
  within_budget (images (handleFileProcessing uuid files s)).
Proof.
  intros [Hpos Hsum]. simpl.
  pose proof (sumOriginal_nonneg _ Hpos) as H0.
  destruct (fileLoop_within uuid files [] (sumOriginal (images s)) []
              (sumOriginal (images s))) as [Hp Hs].
  - exact H0.
  - constructor.
  - change (sumOriginal []) with 0. lra.
  - change (sumOriginal []) with 0. lra.
  - split.
    + apply Forall_app. split; [exact Hpos | exact Hp].
    + pose proof (sumOriginal_app (images s)
                    (acceptedImages (images s) uuid files)) as Ea.
      unfold acceptedImages, processFiles in *. lra.
Qed.

Lemma handleRemoveImage_within i l :
  within_budget l -> within_budget (handleRemoveImage i l).
Proof.
  intros [Hpos Hsum]. split.
  - unfold handleRemoveImage. apply Forall_forall. intros x Hx.
    apply filter_In in Hx. destruct Hx as [Hx _].
    revert x Hx. apply Forall_forall. exact Hpos.
  - pose proof (sumOriginal_filter_le
                  (fun img => negb (String.eqb (id img) i)) l Hpos) as Hle.
    unfold handleRemoveImage. lra.
Qed.

Lemma step_within_budget s s' :
  step s s' -> within_budget (images s) -> within_budget (images s').
Proof.
  intros Hstep Hinv.
  destruct Hstep; simpl;
    try (eapply within_budget_sizes; [|exact Hinv]; symmetry;
         unfold reader_loadstart, reader_load, reader_error,
           compress_canvas_error, compress_load_error;
         repeat first [ rewrite sizes_compress_begin
                      | rewrite sizes_compress_done
                      | rewrite sizes_updateById by reflexivity ];
         reflexivity).
  - apply handleFileProcessing_within. exact Hinv.
  - eapply within_budget_sizes; [|exact Hinv]. symmetry.
    apply sizes_handleQualityChange.
  - apply handleRemoveImage_within. exact Hinv.
  - apply within_budget_nil.
Qed.

Lemma reachable_within_budget s : reachable s -> within_budget (images s).
Proof.
  induction 1 as [|s s' _ IH Hstep].
  - apply within_budget_nil.
  - eapply step_within_budget; eauto.
Qed.

Lemma filesKB_cons f files : filesKB (f :: files) == sizeInKB f + filesKB files.
Proof. exact (total_cons sizeInKB f files). Qed.

Lemma filesKB_nonneg files : 0 <= filesKB files.
Proof.
  apply (total_nonneg sizeInKB). apply Forall_forall.
  intros f _. apply sizeInKB_nonneg.
Qed.

(** Once [totalSize] has passed the budget at a file, the records are those
    of the files before it. *)
Lemma fileLoop_stop uuid f post : forall pre acc tot alerts,
  budget < tot + filesKB (pre ++ [f]) ->
  fst (fileLoop uuid (pre ++ f :: post) acc tot alerts)
  = fst (fileLoop uuid pre acc tot alerts).
Proof.
  induction pre as [|g pre IH]; intros acc tot alerts Hover.
  - pose proof (filesKB_cons f []) as E.
    change (filesKB []) with 0 in E. simpl in Hover. simpl.
    destruct (negb (startsWith (type f) "image/")).
    + apply fileLoop_over. lra.
    + destruct (gtb (tot + sizeInKB f) (MAX_TOTAL_SIZE_MB * 1024)) eqn:G.
      * reflexivity.
      * apply gtb_false in G. fold budget in G. lra.
  - pose proof (filesKB_cons g (pre ++ [f])) as E.
    simpl in Hover. simpl.
    destruct (negb (startsWith (type g) "image/")).
    + apply IH. lra.
    + destruct (gtb (tot + sizeInKB g) (MAX_TOTAL_SIZE_MB * 1024)).
      * reflexivity.
      * apply IH. lra.
Qed.

(** What the loop has taken never weighs more than what it has counted. *)
Lemma fileLoop_sum_le uuid : forall pre acc tot alerts base,
  base + sumOriginal acc <= tot ->
  base + sumOriginal (fst (fileLoop uuid pre acc tot alerts))
  <= tot + filesKB pre.
Proof.
  induction pre as [|g pre IH]; intros acc tot alerts base Hle.
  - simpl. change (filesKB []) with 0. lra.
  - pose proof (filesKB_cons g pre) as E.
    pose proof (sizeInKB_nonneg g) as Hg.
    pose proof (filesKB_nonneg pre) as Hp.
    simpl.
    destruct (negb (startsWith (type g) "image/")).
    + specialize (IH acc (tot + sizeInKB g) (alerts ++ [alert_not_image g]) base).
      lra.
    + destruct (gtb (tot + sizeInKB g) (MAX_TOTAL_SIZE_MB * 1024)).
      * simpl. lra.
      * pose proof (sumOriginal_app acc
                      [newImage (uuid (List.length acc)) g]) as Ea.
        pose proof (sumOriginal_cons
                      (newImage (uuid (List.length acc)) g) []) as Ec.
        rewrite newImage_size in Ec.
        change (sumOriginal []) with 0 in Ec.
        specialize (IH (acc ++ [newImage (uuid (List.length acc)) g])
                       (tot + sizeInKB g) alerts base).
        lra.
Qed.

(** C1.  Whatever the user and the browser do, the original sizes of the
    records held never add up to more than the budget of 50 MB (51200 KB).
    Within one call of [handleFileProcessing], a file at which the running
    total passes the budget is not taken and neither is any file after it:
    the records are those of the files before it.  This holds for the
    total the loop keeps and, a fortiori, for the total of the records
    held and taken so far. *)
Theorem budget_invariant_and_fail_fast :
  (forall s, reachable s -> sumOriginal (images s) <= Spec.totalBudgetKB) /\
  (forall s uuid pre f post,
     Spec.totalBudgetKB < sumOriginal (images s) + filesKB (pre ++ [f]) ->
     images (handleFileProcessing uuid (pre ++ f :: post) s)
     = images (handleFileProcessing uuid pre s)) /\
  (forall s uuid pre f post,
     Spec.totalBudgetKB
       < sumOriginal (images (handleFileProcessing uuid pre s)) + sizeInKB f ->
     images (handleFileProcessing uuid (pre ++ f :: post) s)
     = images (handleFileProcessing uuid pre s)).
Proof.
  assert (Hstop : forall s uuid pre f post,
     Spec.totalBudgetKB < sumOriginal (images s) + filesKB (pre ++ [f]) ->
     images (handleFileProcessing uuid (pre ++ f :: post) s)
     = images (handleFileProcessing uuid pre s)).
  { intros s uuid pre f post Hover. simpl. f_equal.
    unfold acceptedImages, processFiles. apply fileLoop_stop.
    pose proof budget_value. unfold Spec.totalBudgetKB in Hover. lra. }
  split; [|split].
  - intros s Hs. destruct (reachable_within_budget s Hs) as [_ H].
    pose proof budget_value. unfold Spec.totalBudgetKB. lra.
  - exact Hstop.
  - intros s uuid pre f post Hover. apply Hstop.
    simpl in Hover.
    pose proof (sumOriginal_app (images s)
                  (acceptedImages (images s) uuid pre)) as Ea.
    pose proof (fileLoop_sum_le uuid pre [] (sumOriginal (images s)) []
                  (sumOriginal (images s))) as Hle.
    change (sumOriginal []) with 0 in Hle.
    pose proof (total_app sizeInKB pre [f]) as Ef.
    pose proof (total_cons sizeInKB f []) as Ec.
    change (total sizeInKB []) with 0 in Ec.
    unfold filesKB, acceptedImages, processFiles in *. lra.
Qed.

Lemma budget_invariant_and_fail_fast_witness :
  sumOriginal (images dropped) <= Spec.totalBudgetKB /\
  images (handleFileProcessing uuid0 ([photo] ++ poster :: [photo]) init)
  = images (handleFileProcessing uuid0 [photo] init) /\
  images (handleFileProcessing uuid0 ([notes_big] ++ photo :: [photo]) init)
  = images (handleFileProcessing uuid0 [notes_big] init).
Proof.
  split; [|split].
  - apply (proj1 budget_invariant_and_fail_fast). exact dropped_reachable.
  - apply (proj2 (proj2 budget_invariant_and_fail_fast)).
    vm_compute. reflexivity.
  - apply (proj1 (proj2 budget_invariant_and_fail_fast)).
    vm_compute. reflexivity.
Defined.

(* ========================================================================= *)
(** ** Properties of single records kept by every step *)
(* ========================================================================= *)

Lemma Forall_updateById (P : ImageCompressionState -> Prop) i f l :
  (forall img, P img -> P (f img)) ->
  Forall P l -> Forall P (updateById i f l).
Proof.
  intros Hf Hl. unfold updateById. apply Forall_map.
  eapply Forall_impl; [|exact Hl].
  intros img Himg. destruct (String.eqb (id img) i); auto.
Qed.

Lemma Forall_fileLoop (P : ImageCompressionState -> Prop) uuid files :
  (forall i f, P (newImage i f)) ->
  forall acc tot alerts,
  Forall P acc -> Forall P (fst (fileLoop uuid files acc tot alerts)).
Proof.
  intro Hnew.
  induction files as [|f files IH]; intros acc tot alerts Hacc; simpl.
  - exact Hacc.
  - destruct (negb (startsWith (type f) "image/")); [apply IH; exact Hacc|].
    destruct (gtb (tot + sizeInKB f) (MAX_TOTAL_SIZE_MB * 1024)).
    + exact Hacc.
    + apply IH. apply Forall_app. split; [exact Hacc|].
      constructor; [apply Hnew | constructor].
Qed.

Section RecordInvariant.

Variable P : ImageCompressionState -> Prop.

Hypothesis P_new : forall i f, P (newImage i f).
Hypothesis P_compressing : forall b img, P img -> P (set_compressing b img).
Hypothesis P_error : forall e img, P img -> P (set_error e img).
Hypothesis P_original :
  forall src img, isDataURL src = true -> P img -> P (set_originalSrc src img).
Hypothesis P_compressed :
  forall url sz img,
    isDataURL url = true -> getFileSizeFromDataURL url = Returns sz ->
    P img -> P (set_compressed url sz img).

Lemma compress_begin_records i l : Forall P l -> Forall P (compress_begin i l).
Proof. apply Forall_updateById. auto. Qed.

Lemma step_records s s' :
  step s s' -> Forall P (images s) -> Forall P (images s').
Proof.
  intros Hstep Hinv. destruct Hstep; simpl.
  - apply Forall_app. split; [exact Hinv|].
    apply Forall_fileLoop; [exact P_new | constructor].
  - apply Forall_updateById; auto.
  - apply compress_begin_records. apply Forall_updateById; auto.
  - apply Forall_updateById; auto.
  - apply compress_begin_records. exact Hinv.
  - unfold compress_done.
    destruct (getFileSizeFromDataURL compressedDataURL) as [sz|] eqn:E.
    + apply Forall_updateById; eauto.
    + exact Hinv.
  - apply Forall_updateById; auto.
  - apply Forall_updateById; auto.
  - unfold handleQualityChange.
    destruct (Nat.ltb 0 (List.length (images s))); [|exact Hinv].
    destruct (images s) as [|p rest] eqn:E; [exact Hinv|].
    cbn [images].
    destruct (truthy (Some (originalSrc p))).
    + apply (compress_begin_records (id p) (p :: rest)). exact Hinv.
    + exact Hinv.
  - unfold handleRemoveImage. apply Forall_forall. intros x Hx.
    apply filter_In in Hx. destruct Hx as [Hx _].
    revert x Hx. apply Forall_forall. exact Hinv.
  - constructor.
Qed.

Lemma reachable_records s : reachable s -> Forall P (images s).
Proof.
  induction 1 as [|s s' _ IH Hstep].
  - constructor.
  - eapply step_records; eauto.
Qed.

End RecordInvariant.

Lemma reachable_size_matches s :
  reachable s -> Forall size_matches (images s).
Proof.
  apply reachable_records; unfold size_matches; simpl; auto.
Qed.

(** C2 (the component at the failing input).  A text file is turned away,
    yet its size has been added to the running total first: behind a text
    file of 50 MB a picture of 1000 KB is refused for the budget although no
    record is held, while behind an empty text file of the same name the
    same picture is taken. *)
Theorem nonimage_size_spends_budget :
  processFiles [] uuid0 [notes_big; photo]
  = ([], ["File notes.txt ignored: Not an image.";
          "File photo.png ignored: Total batch size exceeds 50MB."]) /\
  processFiles [] uuid0 [notes_empty; photo]
  = ([newImage (uuid0 0) photo], ["File notes.txt ignored: Not an image."]).
Proof.
  split; vm_compute; reflexivity.
Qed.

(** C3 fails as it is worded: after a compression whose canvas had no pixels
    the record holds the preview [data:,] and a compressed size of 0. *)
Lemma size_zero_with_preview :
  ~ (forall s, reachable s ->
     forall img, In img (images s) ->
       (compressedSize img == 0 <-> compressedSrc img = None)).
Proof.
  intro H.
  destruct (H _ blank_reachable _ (or_introl eq_refl)) as [H0 _].
  simpl in H0. specialize (H0 (Qeq_refl 0)). discriminate H0.
Qed.

(** C3, amended.  At every reachable state and for every record: without a
    compressed preview the compressed size is 0; with one, the compressed
    size is the estimate of that preview.  Hence the size is 0 exactly when
    there is no preview or the estimate of the preview is 0, and a size
    other than 0 comes with a preview. *)
Theorem compressed_size_follows_preview (s : State) (img : ImageCompressionState) :
  reachable s -> In img (images s) ->
  (compressedSrc img = None -> compressedSize img = 0) /\
  (forall src, compressedSrc img = Some src ->
     getFileSizeFromDataURL src = Returns (compressedSize img)) /\
  (compressedSize img == 0 <->
     compressedSrc img = None \/
     exists src, compressedSrc img = Some src /\
                 getFileSizeFromDataURL src = Returns (compressedSize img) /\
                 compressedSize img == 0) /\
  (~ compressedSize img == 0 -> compressedSrc img <> None).
Proof.
  intros Hs Hin.
  pose proof (reachable_size_matches s Hs) as Hall.
  rewrite Forall_forall in Hall. specialize (Hall img Hin).
  unfold size_matches in Hall.
  destruct (compressedSrc img) as [src|] eqn:E.
  - destruct Hall as [_ Hsz]. repeat split.
    + discriminate.
    + intros src' [= <-]. exact Hsz.
    + intro H0. right. exists src. auto.
    + intros [Hn | (src' & _ & _ & H0)]; [discriminate | exact H0].
    + discriminate.
  - repeat split.
    + intros _. exact Hall.
    + discriminate.
    + intros _. left. reflexivity.
    + intros _. rewrite Hall. reflexivity.
    + intros Hne _. apply Hne. rewrite Hall. reflexivity.
Qed.

Lemma compressed_size_follows_preview_witness :
  getFileSizeFromDataURL blank_url
  = Returns (compressedSize (photo_record blank_url 0)) /\
  (compressedSize (photo_record blank_url 0) == 0 <->
     compressedSrc (photo_record blank_url 0) = None \/
     exists src, compressedSrc (photo_record blank_url 0) = Some src /\
                 getFileSizeFromDataURL src
                 = Returns (compressedSize (photo_record blank_url 0)) /\
                 compressedSize (photo_record blank_url 0) == 0).
Proof.
  destruct (compressed_size_follows_preview (compressed blank_url 0)
              (photo_record blank_url 0) blank_reachable (or_introl eq_refl))
    as (_ & H2 & H3 & _).
  split; [exact (H2 blank_url eq_refl) | exact H3].
Defined.

(* ========================================================================= *)
(** ** The size estimate *)
(* ========================================================================= *)

Lemma split_nonempty sep s : split sep s <> [].
Proof.
  destruct s as [|c s]; simpl; [discriminate|].
  destruct (Ascii.eqb c sep); [discriminate|].
  destruct (split sep s); discriminate.
Qed.

Lemma split_without sep s : contains sep s = false -> split sep s = [s].
Proof.
  induction s as [|c s IH]; simpl; intro H; [reflexivity|].
  apply orb_false_iff in H. destruct H as [Hc Hs].
  rewrite Hc, (IH Hs). reflexivity.
Qed.

Lemma split_at_first sep h b :
  contains sep h = false ->
  split sep (h ++ String sep b)%string = h :: split sep b.
Proof.
  induction h as [|c h IH]; simpl; intro H.
  - rewrite Ascii.eqb_refl. reflexivity.
  - apply orb_false_iff in H. destruct H as [Hc Hh].
    rewrite Hc, (IH Hh). reflexivity.
Qed.

Lemma length_string_of_bytes l :
  String.length (string_of_bytes l) = List.length l.
Proof. induction l; simpl; congruence. Qed.

Lemma length_sextets l vs : sextets l = Some vs -> List.length vs = List.length l.
Proof.
  revert vs. induction l as [|c l IH]; simpl; intros vs H.
  - injection H as <-. reflexivity.
  - destruct (b64_value c); [|discriminate].
    destruct (sextets l) as [ws|]; [|discriminate].
    injection H as <-. simpl. f_equal. apply IH. reflexivity.
Qed.

Lemma decodedLength_add4 n :
  decodedLength (4 + n) = (3 + decodedLength n)%nat.
Proof.
  unfold decodedLength.
  replace (4 + n)%nat with (n + 1 * 4)%nat by lia.
  rewrite Nat.div_add by discriminate.
  rewrite Nat.Div0.mod_add. lia.
Qed.

Lemma length_bytes_of_sextets_upto n : forall l,
  (List.length l <= n)%nat ->
  List.length (bytes_of_sextets l) = decodedLength (List.length l).
Proof.
  induction n as [|n IH]; intros l Hl.
  - destruct l; [reflexivity | simpl in Hl; lia].
  - destruct l as [|a [|b [|c [|d rest]]]]; try reflexivity.
    change (List.length (a :: b :: c :: d :: rest))
      with (4 + List.length rest)%nat.
    rewrite decodedLength_add4.
    cbn [bytes_of_sextets List.length].
    rewrite IH; [lia|]. simpl in Hl. lia.
Qed.

Lemma length_bytes_of_sextets l :
  List.length (bytes_of_sextets l) = decodedLength (List.length l).
Proof. apply (length_bytes_of_sextets_upto (List.length l)). lia. Qed.

Lemma length_strip_whitespace s :
  (List.length (strip_whitespace s) <= String.length s)%nat.
Proof.
  induction s as [|c s IH]; simpl; [lia|].
  destruct (is_ascii_whitespace c); simpl; lia.
Qed.

Lemma length_strip_padding l :
  (List.length (strip_padding l) <= List.length l)%nat.
Proof.
  unfold strip_padding.
  destruct (Nat.eqb (List.length l mod 4) 0)%nat; [|lia].
  destruct (rev l) as [|p1 [|p2 body]] eqn:E; try lia.
  apply (f_equal (@List.length ascii)) in E.
  rewrite length_rev in E. simpl in E.
  destruct (is_pad p1); [|lia].
  destruct (is_pad p2); simpl; rewrite ?length_app, ?length_rev; simpl; lia.
Qed.

Lemma decodedLength_bound n : (4 * decodedLength n <= 3 * n)%nat.
Proof.
  unfold decodedLength.
  pose proof (Nat.div_mod_eq n 4) as E.
  pose proof (Nat.mod_upper_bound n 4 ltac:(discriminate)) as B.
  destruct (n mod 4) as [|[|[|[|r]]]]; lia.
Qed.

(** What [atob] returns has the length of the decoded bytes, at most three
    quarters of the length of the text. *)
Lemma atob_length data binary :
  atob data = Some binary ->
  String.length binary
  = decodedLength (List.length (strip_padding (strip_whitespace data))) /\
  (4 * String.length binary <= 3 * String.length data)%nat.
Proof.
  unfold atob. intro H.
  destruct (Nat.eqb _ 1); [discriminate|].
  destruct (sextets _) as [vs|] eqn:E; [|discriminate].
  injection H as <-.
  rewrite length_string_of_bytes, length_bytes_of_sextets.
  rewrite (length_sextets _ _ E). split; [reflexivity|].
  pose proof (decodedLength_bound
                (List.length (strip_padding (strip_whitespace data)))).
  pose proof (length_strip_padding (strip_whitespace data)).
  pose proof (length_strip_whitespace data).
  lia.
Qed.

Lemma kbOfBytes_nonneg n : 0 <= kbOfBytes n.
Proof.
  unfold kbOfBytes. apply round2_nonneg.
  apply Qle_shift_div_l; [reflexivity|].
  rewrite Qmult_0_l. change 0 with (inject_Z 0). rewrite <- Zle_Qle. lia.
Qed.

Lemma getFileSize_cases dataurl :
  getFileSizeFromDataURL dataurl = Returns 0 \/
  exists base64 binary,
    nth_error (split "," dataurl) 1 = Some base64 /\
    base64 <> "" /\
    atob base64 = Some binary /\
    getFileSizeFromDataURL dataurl = Returns (kbOfBytes (String.length binary)).
Proof.
  unfold getFileSizeFromDataURL, getFileSizeFromDataURL_try.
  destruct (nth_error (split "," dataurl) 1) as [base64|]; [|left; reflexivity].
  destruct (truthy (Some base64)) eqn:T; simpl; [|left; reflexivity].
  destruct (atob base64) as [binary|] eqn:A; [|left; reflexivity].
  right. exists base64, binary.
  split; [reflexivity|]. split; [intros ->; discriminate T|].
  split; [exact A | reflexivity].
Qed.

(** C7.  [getFileSizeFromDataURL] returns for every string and never throws.
    It returns 0 when the string has no comma, when nothing follows the
    comma, and when what follows is not base64.  On [header,body] with a
    decodable body it returns the number of decoded bytes over 1024 (to two
    decimals, as all sizes of the component), and that number of bytes is
    the decoded length, at most three quarters of the length of the text. *)
Theorem estimate_never_throws_and_measures_bytes :
  (forall dataurl, exists kb,
     getFileSizeFromDataURL dataurl = Returns kb /\ 0 <= kb) /\
  (forall dataurl, contains "," dataurl = false ->
     getFileSizeFromDataURL dataurl = Returns 0) /\
  (forall header, contains "," header = false ->
     getFileSizeFromDataURL (header ++ ",")%string = Returns 0) /\
  (forall header body,
     contains "," header = false -> contains "," body = false ->
     atob body = None ->
     getFileSizeFromDataURL (header ++ "," ++ body)%string = Returns 0) /\
  (forall header body binary,
     contains "," header = false -> contains "," body = false ->
     body <> "" -> atob body = Some binary ->
     getFileSizeFromDataURL (header ++ "," ++ body)%string
     = Returns (round2 (inject_Z (Z.of_nat (String.length binary)) / 1024)) /\
     String.length binary
     = decodedLength (List.length (strip_padding (strip_whitespace body))) /\
     (4 * String.length binary <= 3 * String.length body)%nat).
Proof.
  split; [|split; [|split; [|split]]].
  - intro dataurl. destruct (getFileSize_cases dataurl) as [E | (b & bin & _ & _ & _ & E)].
    + exists 0. split; [exact E | lra].
    + exists (kbOfBytes (String.length bin)). split; [exact E|].
      apply kbOfBytes_nonneg.
  - intros dataurl H.
    unfold getFileSizeFromDataURL, getFileSizeFromDataURL_try.
    rewrite (split_without _ _ H). reflexivity.
  - intros header H.
    unfold getFileSizeFromDataURL, getFileSizeFromDataURL_try.
    rewrite (split_at_first _ _ _ H). reflexivity.
  - intros header body Hh Hb Ha.
    unfold getFileSizeFromDataURL, getFileSizeFromDataURL_try.
    change (header ++ "," ++ body)%string with (header ++ String "," body)%string.
    rewrite (split_at_first _ _ _ Hh), (split_without _ _ Hb). simpl.
    destruct (String.eqb body ""); simpl; [reflexivity|].
    rewrite Ha. reflexivity.
  - intros header body binary Hh Hb Hne Ha.
    split; [|exact (atob_length body binary Ha)].
    unfold getFileSizeFromDataURL, getFileSizeFromDataURL_try.
    change (header ++ "," ++ body)%string with (header ++ String "," body)%string.
    rewrite (split_at_first _ _ _ Hh), (split_without _ _ Hb). simpl.
    destruct (String.eqb_spec body ""); [contradiction|]. simpl.
    rewrite Ha. reflexivity.
Qed.

(* ========================================================================= *)
(** ** The statistics *)
(* ========================================================================= *)


Lemma toFixed1_zero (x : Q) : x == 0 -> toFixed1 x = "0.0".
Proof.
  intro E. unfold toFixed1.
  assert (G : gtb 0 x = false) by (apply gtb_false; lra).
  rewrite G.
  assert (F : Qfloor (x * 10 + (1 # 2)) = 0%Z).
  { assert (E' : x * 10 + (1 # 2) == 1 # 2) by lra.
    rewrite E'. reflexivity. }
  rewrite F. reflexivity.
Qed.

Lemma ratio_sign (sv o : Q) :
  0 < o -> (0 < sv -> 0 < sv / o * 100) /\ (sv <= 0 -> sv / o * 100 <= 0).
Proof.
  intro Ho.
  assert (Hi : 0 < / o) by (apply Qinv_lt_0_compat; exact Ho).
  unfold Qdiv. split; intro Hs.
  - assert (0 < sv * / o) by (apply Qmult_lt_0_compat; assumption). lra.
  - assert (0 <= (- sv) * / o) by (apply Qmult_le_0_compat; lra).
    assert ((- sv) * / o == - (sv * / o)) by ring. lra.
Qed.




(** [globalStats] is [globalStatsWith] at the host's printing. *)
Lemma globalStats_shows_toFixed1 l : globalStats l = globalStatsWith toFixed1 l.
Proof. reflexivity. Qed.





(* ========================================================================= *)
(** ** Identifiers, removal and late completions *)
(* ========================================================================= *)

Lemma ids_updateById i f l :
  (forall img, id (f img) = id img) ->
  map id (updateById i f l) = map id l.
Proof.
  intro Hf. unfold updateById. rewrite map_map. apply map_ext.
  intro img. destruct (String.eqb (id img) i); [apply Hf | reflexivity].
Qed.

Lemma ids_compress_begin i l : map id (compress_begin i l) = map id l.
Proof. apply ids_updateById. reflexivity. Qed.

Lemma ids_compress_done i url l : map id (compress_done i url l) = map id l.
Proof.
  unfold compress_done. destruct (getFileSizeFromDataURL url).
  - apply ids_updateById. reflexivity.
  - reflexivity.
Qed.

Lemma ids_handleQualityChange q s :
  map id (images (handleQualityChange q s)) = map id (images s).
Proof.
  unfold handleQualityChange.
  destruct (Nat.ltb 0 (List.length (images s))); [|reflexivity].
  destruct (images s) as [|p rest] eqn:E; simpl; [reflexivity|].
  destruct (negb (String.eqb (originalSrc p) "")).
  - apply (ids_compress_begin (id p) (p :: rest)).
  - reflexivity.
Qed.

Lemma NoDup_ids_filter (p : ImageCompressionState -> bool) l :
  NoDup (map id l) -> NoDup (map id (filter p l)).
Proof.
  induction l as [|a l IH]; simpl; intro H; [constructor|].
  inversion H as [|? ? Hnotin Hrest]; subst.
  destruct (p a); simpl; [|apply IH; exact Hrest].
  constructor; [|apply IH; exact Hrest].
  intro Hin. apply Hnotin. apply in_map_iff in Hin.
  destruct Hin as (x & Hx & Hf). apply filter_In in Hf.
  apply in_map_iff. exists x. tauto.
Qed.

Lemma step_ids_unique s s' :
  step s s' -> NoDup (map id (images s)) -> NoDup (map id (images s')).
Proof.
  intros Hstep Hinv.
  destruct Hstep; simpl;
    unfold reader_loadstart, reader_load, reader_error,
      compress_canvas_error, compress_load_error;
    rewrite ?ids_compress_begin, ?ids_compress_done;
    rewrite ?ids_updateById by reflexivity;
    try exact Hinv.
  - assumption.
  - rewrite ids_handleQualityChange. exact Hinv.
  - apply NoDup_ids_filter. exact Hinv.
  - constructor.
Qed.

Lemma reachable_ids_unique s : reachable s -> NoDup (map id (images s)).
Proof.
  induction 1 as [|s s' _ IH Hstep].
  - constructor.
  - eapply step_ids_unique; eauto.
Qed.

Lemma same_id_same_record l a b :
  NoDup (map id l) -> In a l -> In b l -> id a = id b -> a = b.
Proof.
  induction l as [|x l IH]; simpl; intros Hnd Ha Hb E; [contradiction|].
  inversion Hnd as [|? ? Hnotin Hrest]; subst.
  destruct Ha as [<- | Ha], Hb as [<- | Hb]; auto.
  - exfalso. apply Hnotin. rewrite E. apply in_map. exact Hb.
  - exfalso. apply Hnotin. rewrite <- E. apply in_map. exact Ha.
Qed.

Lemma updateById_absent i f l :
  ~ In i (map id l) -> updateById i f l = l.
Proof.
  induction l as [|a l IH]; simpl; intro H; [reflexivity|].
  destruct (String.eqb_spec (id a) i) as [E | _].
  - exfalso. apply H. left. exact E.
  - f_equal. apply IH. intro Hin. apply H. right. exact Hin.
Qed.

Lemma handleRemoveImage_absent i l :
  ~ In i (map id l) -> handleRemoveImage i l = l.
Proof.
  induction l as [|a l IH]; simpl; intro H; [reflexivity|].
  destruct (String.eqb_spec (id a) i) as [E | _]; simpl.
  - exfalso. apply H. left. exact E.
  - f_equal. apply IH. intro Hin. apply H. right. exact Hin.
Qed.

Lemma handleRemoveImage_gone i l : ~ In i (map id (handleRemoveImage i l)).
Proof.
  intro Hin. apply in_map_iff in Hin. destruct Hin as (x & Hx & Hf).
  apply filter_In in Hf. destruct Hf as [_ Hf].
  rewrite Hx, String.eqb_refl in Hf. discriminate Hf.
Qed.

Lemma handleRemoveImage_present before r after :
  NoDup (map id (before ++ r :: after)) ->
  handleRemoveImage (id r) (before ++ r :: after) = before ++ after.
Proof.
  intro Hnd. unfold handleRemoveImage.
  rewrite filter_app. simpl. rewrite String.eqb_refl. simpl.
  rewrite map_app in Hnd. simpl in Hnd.
  apply NoDup_remove in Hnd. destruct Hnd as [_ Hnotin].
  fold (handleRemoveImage (id r) before).
  fold (handleRemoveImage (id r) after).
  rewrite !handleRemoveImage_absent; [reflexivity | |];
    intro Hin; apply Hnotin; apply in_or_app; auto.
Qed.

(** C5.  [handleRemoveImage] takes out the record of the given identifier
    and keeps the others in place; it changes nothing when no record has
    that identifier, and afterwards none has.  When no record has the
    identifier, the completion of a compression addressed to it - a result, a
    canvas failure or a load failure - leaves the records as they are. *)
Theorem remove_then_completion_is_noop :
  (forall before r after,
     NoDup (map id (before ++ r :: after)) ->
     handleRemoveImage (id r) (before ++ r :: after) = before ++ after) /\
  (forall i imgs, ~ In i (map id imgs) -> handleRemoveImage i imgs = imgs) /\
  (forall i imgs, ~ In i (map id (handleRemoveImage i imgs))) /\
  (forall i imgs url,
     ~ In i (map id imgs) ->
     compress_done i url imgs = imgs /\
     compress_canvas_error i imgs = imgs /\
     compress_load_error i imgs = imgs /\
     compress_begin i imgs = imgs).
Proof.
  split; [|split; [|split]].
  - exact handleRemoveImage_present.
  - exact handleRemoveImage_absent.
  - exact handleRemoveImage_gone.
  - intros i imgs url H. repeat split.
    + unfold compress_done. destruct (getFileSizeFromDataURL url);
        [apply updateById_absent; exact H | reflexivity].
    + apply updateById_absent. exact H.
    + apply updateById_absent. exact H.
    + apply updateById_absent. exact H.
Qed.

(* ========================================================================= *)
(** ** Failed and new compression attempts *)
(* ========================================================================= *)

Lemma keeps_preview_refl img : keeps_preview img img.
Proof. split; auto. Qed.

Lemma keeps_preview_trans a b c :
  keeps_preview a b -> keeps_preview b c -> keeps_preview a c.
Proof. intros [E1 H1] [E2 H2]. split; [congruence | auto]. Qed.

Lemma In_updateById i f l new :
  In new (updateById i f l) ->
  exists old, In old l /\ (new = old \/ (id old = i /\ new = f old)).
Proof.
  unfold updateById. intro H. apply in_map_iff in H.
  destruct H as (old & E & Hin). exists old. split; [exact Hin|].
  destruct (String.eqb_spec (id old) i); auto.
Qed.

Lemma updateById_keeps i f l new :
  (forall img, keeps_preview img (f img)) ->
  In new (updateById i f l) -> exists old, In old l /\ keeps_preview old new.
Proof.
  intros Hf H. apply In_updateById in H.
  destruct H as (old & Hin & [-> | [_ ->]]); exists old; split; auto.
  apply keeps_preview_refl.
Qed.

Lemma compress_begin_keeps i l new :
  In new (compress_begin i l) -> exists old, In old l /\ keeps_preview old new.
Proof. apply updateById_keeps. intro img. split; auto. Qed.

Lemma NoDup_app_apart {A : Type} (l1 l2 : list A) (x : A) :
  NoDup (l1 ++ l2) -> In x l1 -> In x l2 -> False.
Proof.
  induction l1 as [|a l1 IH]; simpl; intros Hnd H1 H2; [contradiction|].
  inversion Hnd as [|? ? Hnotin Hrest]; subst.
  destruct H1 as [-> | H1].
  - apply Hnotin. apply in_or_app. right. exact H2.
  - apply IH; assumption.
Qed.

(** Over a step a record either descends from one held before, keeping its
    compressed result, or is new under a new identifier. *)
Lemma step_keeps_preview s s' new :
  step s s' -> In new (images s') ->
  (exists old, In old (images s) /\ keeps_preview old new) \/
  ~ In (id new) (map id (images s)).
Proof.
  intros Hstep Hin.
  assert (Hsame : In new (images s) ->
            exists old, In old (images s) /\ keeps_preview old new).
  { intro H. exists new. split; [exact H | apply keeps_preview_refl]. }
  destruct Hstep; simpl in Hin.
  - apply in_app_or in Hin. destruct Hin as [Hin | Hin]; [left; auto|].
    right. intro Hid. rewrite map_app in H.
    apply (NoDup_app_apart _ _ (id new) H Hid).
    apply in_map. exact Hin.
  - left. eapply updateById_keeps; [|exact Hin]. intro img. split; auto.
  - left. apply compress_begin_keeps in Hin.
    destruct Hin as (mid & Hmid & K1).
    eapply updateById_keeps in Hmid; [|intro img; split; auto].
    destruct Hmid as (old & Hold & K0). exists old. split; [exact Hold|].
    eapply keeps_preview_trans; eauto.
  - left. eapply updateById_keeps; [|exact Hin]. intro img. split; auto.
  - left. exact (compress_begin_keeps _ _ _ Hin).
  - left. unfold compress_done in Hin.
    destruct (getFileSizeFromDataURL compressedDataURL); [|auto].
    eapply updateById_keeps; [|exact Hin].
    intro img. split; [reflexivity|]. simpl. discriminate.
  - left. eapply updateById_keeps; [|exact Hin]. intro img. split; auto.
  - left. eapply updateById_keeps; [|exact Hin]. intro img. split; auto.
  - left. unfold handleQualityChange in Hin.
    destruct (Nat.ltb 0 (List.length (images s))); [|auto].
    destruct (images s) as [|p rest] eqn:E; [auto|].
    cbn [images] in Hin.
    destruct (truthy (Some (originalSrc p))); [|auto].
    exact (compress_begin_keeps (id p) (p :: rest) _ Hin).
  - left. apply Hsame. unfold handleRemoveImage in Hin.
    apply filter_In in Hin. tauto.
  - contradiction.
Qed.

Lemma Forall2_updateById (R : ImageCompressionState -> ImageCompressionState -> Prop)
    i f l :
  (forall img, id img = i -> R img (f img)) ->
  (forall img, id img <> i -> R img img) ->
  Forall2 R l (updateById i f l).
Proof.
  intros Hhit Hmiss. induction l as [|a l IH]; simpl; constructor; [|exact IH].
  destruct (String.eqb_spec (id a) i); auto.
Qed.

(** C6.  A failed compression - the image does not load, or no canvas
    context - leaves the compressed preview and compressed size of every
    record as they were and sets the error message of the record it was
    for; the start of a compression clears the error message of its record.
    Over any step of the component a record that has a compressed preview
    still has one afterwards. *)
Theorem failure_keeps_result_start_clears_error :
  (forall i imgs,
     Forall2 (after_failure i "Image load failed.") imgs
             (compress_load_error i imgs)) /\
  (forall i imgs,
     Forall2 (after_failure i "Canvas error.") imgs
             (compress_canvas_error i imgs)) /\
  (forall i imgs, Forall2 (after_begin i) imgs (compress_begin i imgs)) /\
  (forall s s' old new,
     reachable s -> step s s' ->
     In old (images s) -> In new (images s') -> id new = id old ->
     compressedSrc old <> None -> compressedSrc new <> None).
Proof.
  split; [|split; [|split]].
  - intros i imgs. apply Forall2_updateById; intros img H;
      unfold after_failure; simpl; tauto.
  - intros i imgs. apply Forall2_updateById; intros img H;
      unfold after_failure; simpl; tauto.
  - intros i imgs. apply Forall2_updateById; intros img H;
      unfold after_begin; simpl; tauto.
  - intros s s' old new Hs Hstep Hold Hnew Hid Hsome.
    destruct (step_keeps_preview s s' new Hstep Hnew)
      as [(old0 & Hold0 & [Hid0 Hkeep]) | Hfresh].
    + assert (old0 = old).
      { apply (same_id_same_record (images s)); try assumption.
        - apply reachable_ids_unique. exact Hs.
        - congruence. }
      subst old0. auto.
    + exfalso. apply Hfresh. rewrite Hid. apply in_map. exact Hold.
Qed.

(* ========================================================================= *)
(** ** A change of quality *)
(* ========================================================================= *)

Lemma beginAll_map ids : forall imgs,
  beginAll ids imgs
  = map (fun img => if existsb (String.eqb (id img)) ids then begun img else img)
        imgs.
Proof.
  induction ids as [|i ids IH]; intro imgs; simpl.
  - symmetry. apply map_id.
  - unfold beginAll in *. simpl. rewrite IH.
    unfold compress_begin, updateById. rewrite map_map. apply map_ext.
    intro img. fold (begun img).
    destruct (String.eqb (id img) i) eqn:E; simpl.
    + change (id (begun img)) with (id img).
      destruct (existsb (String.eqb (id img)) ids); reflexivity.
    + reflexivity.
Qed.

Lemma existsb_ids_hasOriginal imgs img :
  NoDup (map id imgs) -> In img imgs ->
  existsb (String.eqb (id img)) (map id (filter hasOriginal imgs))
  = hasOriginal img.
Proof.
  intros Hnd Hin.
  destruct (hasOriginal img) eqn:Ho.
  - apply existsb_exists. exists (id img). split; [|apply String.eqb_refl].
    apply in_map. apply filter_In. auto.
  - destruct (existsb _ _) eqn:Ex; [|reflexivity].
    apply existsb_exists in Ex. destruct Ex as (i & Hi & E).
    apply String.eqb_eq in E. subst i.
    apply in_map_iff in Hi. destruct Hi as (other & Hid & Hf).
    apply filter_In in Hf. destruct Hf as [Hother Hoo].
    assert (other = img) by (apply (same_id_same_record imgs); auto).
    subst other. congruence.
Qed.

Lemma beginAll_hasOriginal imgs :
  NoDup (map id imgs) ->
  beginAll (map id (filter hasOriginal imgs)) imgs = map beginIfOriginal imgs.
Proof.
  intro Hnd. rewrite beginAll_map. apply map_ext_in.
  intros img Hin. rewrite (existsb_ids_hasOriginal imgs img Hnd Hin).
  reflexivity.
Qed.

(** The timers in [ts] fire one after the other. *)
Lemma timers_fire ts : forall s pre,
  timers s = pre ++ ts ->
  run s {| images := beginAll (map task_id ts) (images s);
           quality := quality s; readers := readers s; timers := pre;
           decoding := decoding s ++ ts |}.
Proof.
  induction ts as [|t ts IH]; intros s pre Ht.
  - rewrite !app_nil_r in *. simpl. destruct s; simpl in *; subst.
    apply run_done.
  - eapply run_step.
    + apply (step_timer s pre ts t). exact Ht.
    + match goal with |- run ?mid _ => specialize (IH mid pre eq_refl) end.
      simpl in IH. destruct t as [ti tsrc tq]. simpl in *.
      rewrite <- app_assoc in IH. exact IH.
Qed.

Lemma handleQualityChange_calls q s :
  let s' := handleQualityChange q s in
  quality s' = q /\ readers s' = readers s /\
  images s' = beginAll (map id (filter hasOriginal (firstn 1 (images s))))
                       (images s) /\
  decoding s'
  = decoding s ++ map (encodeTask q) (filter hasOriginal (firstn 1 (images s))) /\
  timers s'
  = timers s ++ map (encodeTask q) (filter hasOriginal (skipn 1 (images s))).
Proof.
  unfold handleQualityChange.
  destruct (images s) as [|p rest] eqn:E; simpl.
  - rewrite !app_nil_r. repeat split; reflexivity.
  - unfold hasOriginal. simpl.
    assert (Hd : flat_map
              (fun img => if negb (String.eqb (originalSrc img) "")
                          then [{| task_id := id img; task_src := originalSrc img;
                                   task_quality := q |}]
                          else []) rest
            = map (encodeTask q)
                (filter (fun img => negb (String.eqb (originalSrc img) "")) rest)).
    { clear. induction rest as [|a rest IH]; simpl; [reflexivity|].
      destruct (negb (String.eqb (originalSrc a) "")); simpl; rewrite IH;
        reflexivity. }
    destruct (negb (String.eqb (originalSrc p) "")); simpl;
      rewrite ?E, ?app_nil_r, Hd; repeat split; reflexivity.
Qed.

Lemma task_ids q l : map task_id (map (encodeTask q) l) = map id l.
Proof. rewrite map_map. reflexivity. Qed.

Lemma filter_first_rest {A : Type} (p : A -> bool) (l : list A) :
  filter p (firstn 1 l) ++ filter p (skipn 1 l) = filter p l.
Proof. rewrite <- filter_app, firstn_skipn. reflexivity. Qed.

Lemma begin_first imgs :
  NoDup (map id imgs) ->
  beginAll (map id (filter hasOriginal (firstn 1 imgs))) imgs
  = map beginIfOriginal (firstn 1 imgs) ++ skipn 1 imgs.
Proof.
  destruct imgs as [|p rest]; [reflexivity|]. intro Hnd.
  cbn [firstn skipn filter map]. unfold beginIfOriginal at 1.
  destruct (hasOriginal p); [|reflexivity].
  cbn [map beginAll fold_left app].
  unfold compress_begin at 1, updateById. cbn [map].
  rewrite String.eqb_refl. fold (begun p). f_equal.
  inversion Hnd as [|? ? Hnotin _]; subst.
  exact (updateById_absent (id p) _ rest Hnotin).
Qed.

(** C8.  [handleQualityChange] sets the shared quality.  It calls
    [compressImage] with the new quality at once for the first record when
    that record has its original, and leaves one such call on a timer for
    every other record that has its original; records without their
    original get no call.  Each call puts its record in [Compressing]
    with no error message, so once the timers have fired exactly the
    records with an original have been put there, each with one encoding at
    the new quality under way. *)
Theorem quality_change_reencodes_originals (s : State) (newQuality : N) :
  reachable s ->
  let s' := handleQualityChange newQuality s in
  quality s' = newQuality /\
  images s' = map beginIfOriginal (firstn 1 (images s)) ++ skipn 1 (images s) /\
  decoding s'
  = decoding s
    ++ map (encodeTask newQuality) (filter hasOriginal (firstn 1 (images s))) /\
  timers s'
  = timers s
    ++ map (encodeTask newQuality) (filter hasOriginal (skipn 1 (images s))) /\
  run s' {| images := map beginIfOriginal (images s);
            quality := newQuality;
            readers := readers s;
            timers := timers s;
            decoding := decoding s
              ++ map (encodeTask newQuality) (filter hasOriginal (images s)) |} /\
  (forall img, hasOriginal img = true ->
     Spec.status (beginIfOriginal img) = Spec.Compressing /\
     error (beginIfOriginal img) = None) /\
  (forall img, hasOriginal img = false -> beginIfOriginal img = img).
Proof.
  intro Hs. cbv zeta.
  pose proof (reachable_ids_unique s Hs) as Hnd.
  destruct (handleQualityChange_calls newQuality s)
    as (Hq & Hr & Hi & Hd & Ht).
  split; [exact Hq|]. split; [rewrite Hi; apply begin_first; exact Hnd|].
  split; [exact Hd|]. split; [exact Ht|]. split; [|split].
  - pose proof (timers_fire _ _ _ Ht) as Hrun.
    rewrite Hq, Hr, Hd, Hi, task_ids in Hrun.
    unfold beginAll in Hrun. rewrite <- fold_left_app in Hrun.
    rewrite <- map_app, filter_first_rest in Hrun.
    fold (beginAll (map id (filter hasOriginal (images s))) (images s)) in Hrun.
    rewrite (beginAll_hasOriginal _ Hnd) in Hrun.
    rewrite <- app_assoc, <- map_app, filter_first_rest in Hrun.
    exact Hrun.
  - intros img Ho. unfold beginIfOriginal. rewrite Ho.
    unfold Spec.status. cbn -[hasOriginal].
    change (hasOriginal (begun img)) with (hasOriginal img).
    rewrite Ho. split; reflexivity.
  - intros img Ho. unfold beginIfOriginal. rewrite Ho. reflexivity.
Qed.

(* ========================================================================= *)
(** ** The archive *)
(* ========================================================================= *)

Lemma list_ascii_app a b :
  list_ascii_of_string (a ++ b)%string
  = list_ascii_of_string a ++ list_ascii_of_string b.
Proof. induction a as [|c a IH]; simpl; [reflexivity | rewrite IH; reflexivity]. Qed.

Lemma contains_false c s :
  contains c s = false -> forall d, In d (list_ascii_of_string s) -> d <> c.
Proof.
  induction s as [|e s IH]; simpl; intros H d Hd; [contradiction|].
  apply orb_false_iff in H. destruct H as [He Hs].
  destruct Hd as [<- | Hd]; [|apply IH; assumption].
  intros ->. rewrite Ascii.eqb_refl in He. discriminate He.
Qed.


Lemma ext_scan_ext l rev_base : forall k,
  (forall d, In d l -> d <> "."%char) ->
  (forall d, In d l -> d <> "/"%char) ->
  ext_scan (l ++ "."%char :: rev_base) k
  = match (k + List.length l)%nat with O => None | S _ => Some rev_base end.
Proof.
  induction l as [|c l IH]; intros k Hdot Hslash; simpl.
  - rewrite Nat.add_0_r. reflexivity.
  - destruct (Ascii.eqb_spec c "."%char) as [E | _].
    { exfalso. apply (Hdot c); [left; reflexivity | exact E]. }
    destruct (Ascii.eqb_spec c "/"%char) as [E | _].
    { exfalso. apply (Hslash c); [left; reflexivity | exact E]. }
    rewrite IH.
    + replace (S k + List.length l)%nat with (k + S (List.length l))%nat by lia.
      reflexivity.
    + intros d Hd. apply Hdot. right. exact Hd.
    + intros d Hd. apply Hslash. right. exact Hd.
Qed.

Lemma stripExtension_ext base ext :
  ext <> "" -> contains "." ext = false -> contains "/" ext = false ->
  stripExtension (base ++ "." ++ ext)%string = base.
Proof.
  intros Hne Hdot Hslash. unfold stripExtension.
  rewrite list_ascii_app. simpl. rewrite rev_app_distr. simpl.
  rewrite <- app_assoc. simpl.
  rewrite ext_scan_ext.
  - rewrite length_rev.
    destruct ext as [|c ext]; [contradiction|]. simpl.
    rewrite rev_involutive. apply string_of_list_ascii_of_string.
  - intros d Hd. apply in_rev in Hd. revert d Hd. apply contains_false. exact Hdot.
  - intros d Hd. apply in_rev in Hd. revert d Hd. apply contains_false. exact Hslash.
Qed.


Lemma isDataURL_truthy src : isDataURL src = true -> truthy (Some src) = true.
Proof. destruct src; [discriminate | reflexivity]. Qed.











(* ========================================================================= *)
(** ** Which files become records *)
(* ========================================================================= *)

Lemma fileLoop_extends uuid files : forall acc tot alerts,
  exists rest, fst (fileLoop uuid files acc tot alerts) = acc ++ rest.
Proof.
  induction files as [|f files IH]; intros acc tot alerts; simpl.
  - exists []. rewrite app_nil_r. reflexivity.
  - destruct (negb (startsWith (type f) "image/")); [apply IH|].
    destruct (gtb (tot + sizeInKB f) (MAX_TOTAL_SIZE_MB * 1024)).
    + exists []. rewrite app_nil_r. reflexivity.
    + destruct (IH (acc ++ [newImage (uuid (List.length acc)) f])
                   (tot + sizeInKB f) alerts) as [rest E].
      rewrite E, <- app_assoc. eexists. reflexivity.
Qed.

Lemma fileLoop_takes uuid f post : forall pre acc tot alerts,
  declaredImage f = true ->
  tot + filesKB (pre ++ [f]) <= budget ->
  exists rest,
    fst (fileLoop uuid (pre ++ f :: post) acc tot alerts)
    = fst (fileLoop uuid pre acc tot alerts)
      ++ newImage (uuid (List.length (fst (fileLoop uuid pre acc tot alerts)))) f
      :: rest.
Proof.
  unfold declaredImage.
  induction pre as [|g pre IH]; intros acc tot alerts Himg Hfit.
  - pose proof (filesKB_cons f []) as E.
    change (filesKB []) with 0 in E. simpl in Hfit. simpl.
    rewrite Himg. simpl.
    destruct (gtb (tot + sizeInKB f) (MAX_TOTAL_SIZE_MB * 1024)) eqn:G.
    + apply gtb_true in G. fold budget in G. lra.
    + destruct (fileLoop_extends uuid post
                  (acc ++ [newImage (uuid (List.length acc)) f])
                  (tot + sizeInKB f) alerts) as [rest Er].
      rewrite Er, <- app_assoc. exists rest. reflexivity.
  - pose proof (filesKB_cons g (pre ++ [f])) as E.
    pose proof (filesKB_nonneg (pre ++ [f])) as Hp.
    simpl in Hfit. simpl.
    destruct (negb (startsWith (type g) "image/")).
    + apply IH; [exact Himg | lra].
    + destruct (gtb (tot + sizeInKB g) (MAX_TOTAL_SIZE_MB * 1024)) eqn:G.
      * apply gtb_true in G. fold budget in G. lra.
      * apply IH; [exact Himg | lra].
Qed.

Lemma fileLoop_content uuid (g : File -> File) files :
  (forall f, type (g f) = type f) ->
  (forall f, size (g f) = size f) ->
  forall acc tot alerts alerts',
  fst (fileLoop uuid (map g files)
         (map (fun img => with_file (g (file img)) img) acc) tot alerts')
  = map (fun img => with_file (g (file img)) img)
        (fst (fileLoop uuid files acc tot alerts)).
Proof.
  intros Htype Hsize.
  assert (Hkb : forall f, sizeInKB (g f) = sizeInKB f).
  { intro f. unfold sizeInKB. rewrite Hsize. reflexivity. }
  induction files as [|f files IH]; intros acc tot alerts alerts'; simpl.
  - reflexivity.
  - rewrite Htype, Hkb.
    destruct (negb (startsWith (type f) "image/")); [apply IH|].
    destruct (gtb (tot + sizeInKB f) (MAX_TOTAL_SIZE_MB * 1024)).
    + reflexivity.
    + rewrite <- (IH _ _ alerts alerts'). rewrite map_app, length_map. simpl.
      unfold newImage, with_file. simpl. rewrite Hkb. reflexivity.
Qed.

Lemma fileLoop_declared uuid files : forall acc tot alerts,
  Forall (fun img => declaredImage (file img) = true) acc ->
  Forall (fun img => declaredImage (file img) = true)
         (fst (fileLoop uuid files acc tot alerts)).
Proof.
  induction files as [|f files IH]; intros acc tot alerts Hacc; simpl.
  - exact Hacc.
  - destruct (startsWith (type f) "image/") eqn:T; simpl; [|apply IH; exact Hacc].
    destruct (gtb (tot + sizeInKB f) (MAX_TOTAL_SIZE_MB * 1024)).
    + exact Hacc.
    + apply IH. apply Forall_app. split; [exact Hacc|].
      constructor; [exact T | constructor].
Qed.

(* ========================================================================= *)
(** ** The theorems at the sample runs *)
(* ========================================================================= *)


Lemma remove_then_completion_is_noop_witness :
  handleRemoveImage (uuid0 0) ([] ++ photo_record blank_url 0 :: []) = [] /\
  handleRemoveImage "gone" [photo_record blank_url 0] = [photo_record blank_url 0] /\
  compress_done "gone" tiny_url [photo_record blank_url 0]
  = [photo_record blank_url 0].
Proof.
  destruct remove_then_completion_is_noop as (H1 & H2 & _ & H4).
  split; [|split].
  - apply (H1 [] (photo_record blank_url 0) []).
    simpl. constructor; [intros [] | constructor].
  - apply H2. simpl. intros [H | []]. discriminate H.
  - apply (H4 "gone" [photo_record blank_url 0] tiny_url).
    simpl. intros [H | []]. discriminate H.
Defined.

Lemma failure_keeps_result_start_clears_error_witness :
  compressedSrc (begun (photo_record blank_url 0)) <> None.
Proof.
  destruct failure_keeps_result_start_clears_error as (_ & _ & _ & H).
  apply (H (compressed blank_url 0) (handleQualityChange 30 (compressed blank_url 0))
           (photo_record blank_url 0) (begun (photo_record blank_url 0))).
  - exact blank_reachable.
  - apply step_quality.
  - left. reflexivity.
  - left. reflexivity.
  - reflexivity.
  - discriminate.
Defined.

Lemma estimate_never_throws_and_measures_bytes_witness :
  getFileSizeFromDataURL "no payload here" = Returns 0 /\
  getFileSizeFromDataURL ("data:image/jpeg;base64" ++ ",")%string = Returns 0 /\
  getFileSizeFromDataURL ("data:image/jpeg;base64" ++ "," ++ "@@@@")%string
  = Returns 0 /\
  getFileSizeFromDataURL
    ("data:image/jpeg;base64" ++ "," ++ repeat_char "A" 4096)%string
  = Returns (round2 (inject_Z (Z.of_nat
               (String.length (repeat_char zero 3072))) / 1024)).
Proof.
  destruct estimate_never_throws_and_measures_bytes as (_ & H1 & H2 & H3 & H4).
  split; [|split; [|split]].
  - apply H1. reflexivity.
  - apply H2. reflexivity.
  - apply H3; reflexivity.
  - apply (H4 "data:image/jpeg;base64"%string (repeat_char "A" 4096)
              (repeat_char zero 3072)).
    + reflexivity.
    + vm_compute. reflexivity.
    + discriminate.
    + vm_compute. reflexivity.
Defined.

Lemma quality_change_reencodes_originals_witness :
  quality (handleQualityChange 30 (compressed blank_url 0)) = 30%N /\
  images (handleQualityChange 30 (compressed blank_url 0))
  = [begun (photo_record blank_url 0)].
Proof.
  destruct (quality_change_reencodes_originals (compressed blank_url 0) 30
              blank_reachable) as (H1 & H2 & _).
  split; [exact H1 | exact H2].
Defined.


(* ========================================================================= *)
(** ** Further properties of the batch component *)
(* ========================================================================= *)

Lemma round2_close (x : Q) : round2 x - x <= 1 # 200 /\ x - round2 x < 1 # 200.
Proof.
  unfold round2.
  pose proof (Qfloor_le (x * 100 + (1 # 2))) as Hlo.
  pose proof (Qlt_floor (x * 100 + (1 # 2))) as Hhi.
  rewrite inject_Z_plus in Hhi. change (inject_Z 1) with 1 in Hhi.
  set (n := inject_Z (Qfloor (x * 100 + (1 # 2)))) in *.
  assert (E : n / 100 == n * (1 # 100)) by (unfold Qdiv; reflexivity).
  split; lra.
Qed.

(** X2.  In every reachable state the original size of a record is the size
    of its file in KB rounded to two decimals: it never changes after the
    record is created, is not negative, and lies within 0.005 KB of
    [file.size / 1024]. *)
Theorem original_size_is_rounded_file_size (s : State) (img : ImageCompressionState) :
  reachable s -> In img (images s) ->
  originalSize img = sizeInKB (file img) /\
  0 <= originalSize img /\
  originalSize img - inject_Z (Z.of_N (size (file img))) / 1024 <= 1 # 200 /\
  inject_Z (Z.of_N (size (file img))) / 1024 - originalSize img < 1 # 200.
Proof.
  intros Hs Hin.
  assert (Hall : Forall (fun r => originalSize r = sizeInKB (file r)) (images s)).
  { apply reachable_records; auto. }
  rewrite Forall_forall in Hall. specialize (Hall img Hin).
  rewrite Hall. split; [reflexivity|]. split; [apply sizeInKB_nonneg|].
  unfold sizeInKB. apply round2_close.
Qed.

Lemma original_size_is_rounded_file_size_witness :
  originalSize (photo_record blank_url 0) = sizeInKB photo.
Proof.
  exact (proj1 (original_size_is_rounded_file_size (compressed blank_url 0)
                  (photo_record blank_url 0) blank_reachable (or_introl eq_refl))).
Defined.

Lemma nonimage_not_declared f :
  negb (startsWith (type f) "image/") = negb (declaredImage f).
Proof. reflexivity. Qed.

(** The loop passes over the first [k] files and stops at the next, if
    there is one: the files it passes become records when declared images and
    alerts otherwise. *)
Lemma fileLoop_shape uuid files : forall acc tot alerts,
  exists k,
    (k <= List.length files)%nat /\
    fst (fileLoop uuid files acc tot alerts)
    = acc ++ recordsOf uuid (List.length acc)
               (filter declaredImage (firstn k files)) /\
    snd (fileLoop uuid files acc tot alerts)
    = alerts
      ++ map alert_not_image
           (filter (fun f => negb (declaredImage f)) (firstn k files))
      ++ budgetAlert (nth_error files k) /\
    (forall f, nth_error files k = Some f ->
       declaredImage f = true /\ budget < totalAfter tot (firstn (S k) files)).
Proof.
  induction files as [|f files IH]; intros acc tot alerts.
  - exists 0%nat. simpl. rewrite !app_nil_r.
    split; [lia|]. split; [reflexivity|]. split; [reflexivity|]. discriminate.
  - cbn [fileLoop]. rewrite nonimage_not_declared.
    destruct (declaredImage f) eqn:D; cbn [negb].
    + destruct (gtb (tot + sizeInKB f) (MAX_TOTAL_SIZE_MB * 1024)) eqn:G.
      * exists 0%nat.
        cbn [firstn filter map nth_error budgetAlert app List.length recordsOf
             fst snd].
        rewrite !app_nil_r. split; [lia|]. split; [reflexivity|].
        split; [reflexivity|].
        intros g [= <-]. split; [exact D|]. apply gtb_true in G. exact G.
      * destruct (IH (acc ++ [newImage (uuid (List.length acc)) f])
                     (tot + sizeInKB f) alerts) as (k & Hk & Hacc & Hal & Hstop).
        exists (S k). cbn [firstn filter nth_error List.length].
        rewrite D. split; [lia|]. split; [|split].
        -- rewrite Hacc, <- app_assoc, length_app. cbn [List.length app recordsOf].
           replace (List.length acc + 1)%nat with (S (List.length acc)) by lia.
           reflexivity.
        -- rewrite Hal. cbn [negb]. reflexivity.
        -- intros g Hg. destruct (Hstop g Hg) as [Hd Hb]. split; [exact Hd|].
           exact Hb.
    + destruct (IH acc (tot + sizeInKB f) (alerts ++ [alert_not_image f]))
        as (k & Hk & Hacc & Hal & Hstop).
      exists (S k). cbn [firstn filter nth_error List.length].
      rewrite D. cbn [negb]. split; [lia|]. split; [|split].
      * exact Hacc.
      * rewrite Hal, <- app_assoc. reflexivity.
      * intros g Hg. destruct (Hstop g Hg) as [Hd Hb]. split; [exact Hd|].
        exact Hb.
Qed.

Lemma recordsOf_files uuid from files :
  map file (recordsOf uuid from files) = files.
Proof.
  revert from. induction files as [|f files IH]; intro from; simpl;
    [reflexivity | rewrite IH; reflexivity].
Qed.

Lemma recordsOf_ids uuid from files :
  map id (recordsOf uuid from files) = map uuid (seq from (List.length files)).
Proof.
  revert from. induction files as [|f files IH]; intro from; simpl;
    [reflexivity | rewrite IH; reflexivity].
Qed.

Lemma recordsOf_length uuid from files :
  List.length (recordsOf uuid from files) = List.length files.
Proof.
  revert from. induction files as [|f files IH]; intro from; simpl;
    [reflexivity | rewrite IH; reflexivity].
Qed.

(** X3.  One call of [handleFileProcessing] puts the new records behind
    those held, which stay as they are.  The new records are those of the
    files declared as images among the first [k] files of the list, for some
    [k], in the order of the list; each is as created by the loop (no
    source, no preview, not compressing, no error), and they carry the
    identifiers drawn from [crypto.randomUUID()] in the order drawn. *)
Theorem new_records_follow_the_file_list
    (uuid : nat -> string) (fileList : list File) (s : State) :
  exists k,
    (k <= List.length fileList)%nat /\
    images (handleFileProcessing uuid fileList s)
    = images s ++ recordsOf uuid 0 (filter declaredImage (firstn k fileList)) /\
    map file (acceptedImages (images s) uuid fileList)
    = filter declaredImage (firstn k fileList) /\
    map id (acceptedImages (images s) uuid fileList)
    = map uuid (seq 0 (List.length (acceptedImages (images s) uuid fileList))).
Proof.
  destruct (fileLoop_shape uuid fileList [] (sumOriginal (images s)) [])
    as (k & Hk & Hacc & _ & _).
  exists k. cbn [app List.length] in Hacc.
  unfold handleFileProcessing, acceptedImages, processFiles. cbn [images].
  rewrite Hacc. split; [exact Hk|]. split; [reflexivity|].
  split; [apply recordsOf_files|].
  rewrite recordsOf_ids, recordsOf_length. reflexivity.
Qed.

(** X4.  The alerts of one call, in order: one "Not an image" alert for
    each file not declared as an image among the first [k] files, then the
    budget alert for the file at position [k] if the list reaches that far.
    So there is at most one budget alert and it comes last; it is raised for
    a declared image at which the sizes counted so far add up to the budget
    or more, and the files behind it get neither a record nor an alert.
    Each of the first [k] files gets either a record or an alert. *)
Theorem alerts_account_for_the_files_passed
    (imgs : list ImageCompressionState) (uuid : nat -> string)
    (fileList : list File) :
  exists k,
    (k <= List.length fileList)%nat /\
    snd (processFiles imgs uuid fileList)
    = map alert_not_image
        (filter (fun f => negb (declaredImage f)) (firstn k fileList))
      ++ budgetAlert (nth_error fileList k) /\
    (forall f, nth_error fileList k = Some f ->
       declaredImage f = true /\
       budget <= totalAfter (sumOriginal imgs) (firstn (S k) fileList)) /\
    (List.length (acceptedImages imgs uuid fileList)
     + List.length (snd (processFiles imgs uuid fileList))
     = k + List.length (budgetAlert (nth_error fileList k)))%nat.
Proof.
  destruct (fileLoop_shape uuid fileList [] (sumOriginal imgs) [])
    as (k & Hk & Hacc & Hal & Hstop).
  exists k. cbn [app List.length] in Hacc, Hal.
  unfold acceptedImages, processFiles.
  split; [exact Hk|]. split; [exact Hal|].
  split; [intros f Hf; destruct (Hstop f Hf) as [Hd Hlt];
          split; [exact Hd | apply Qlt_le_weak; exact Hlt]|].
  rewrite Hacc, Hal, recordsOf_length, length_app, length_map.
  pose proof (filter_length declaredImage (firstn k fileList)) as E.
  rewrite length_firstn in E. lia.
Qed.

(** The loop looks at [totalSize] only to compare it with the budget. *)
Lemma fileLoop_total_compat uuid files : forall acc tot tot' alerts,
  tot == tot' ->
  fileLoop uuid files acc tot alerts = fileLoop uuid files acc tot' alerts.
Proof.
  induction files as [|f files IH]; intros acc tot tot' alerts E; simpl.
  - reflexivity.
  - assert (E' : tot + sizeInKB f == tot' + sizeInKB f) by lra.
    rewrite (gtb_compat _ _ _ E').
    destruct (negb (startsWith (type f) "image/")); [apply IH; exact E'|].
    destruct (gtb (tot' + sizeInKB f) (MAX_TOTAL_SIZE_MB * 1024));
      [reflexivity | apply IH; exact E'].
Qed.

Lemma fileLoop_uuid_ext (u u' : nat -> string) files : forall acc tot alerts,
  (forall k, u k = u' k) ->
  fileLoop u files acc tot alerts = fileLoop u' files acc tot alerts.
Proof.
  induction files as [|f files IH]; intros acc tot alerts E; simpl.
  - reflexivity.
  - destruct (negb (startsWith (type f) "image/")); [apply IH; exact E|].
    destruct (gtb (tot + sizeInKB f) (MAX_TOTAL_SIZE_MB * 1024));
      [reflexivity|].
    rewrite E. apply IH. exact E.
Qed.

(** Records taken earlier only shift the numbering of the identifiers. *)
Lemma fileLoop_from files : forall uuid acc tot alerts,
  fst (fileLoop uuid files acc tot alerts)
  = acc ++ fst (fileLoop (fun k => uuid (List.length acc + k)%nat) files []
                         tot alerts).
Proof.
  induction files as [|f files IH]; intros uuid acc tot alerts; simpl.
  - rewrite app_nil_r. reflexivity.
  - destruct (negb (startsWith (type f) "image/")); [apply IH|].
    destruct (gtb (tot + sizeInKB f) (MAX_TOTAL_SIZE_MB * 1024)).
    + rewrite app_nil_r. reflexivity.
    + rewrite (IH uuid (acc ++ [newImage (uuid (List.length acc)) f])).
      rewrite (IH (fun k => uuid (List.length acc + k)%nat)
                  [newImage (uuid (List.length acc + 0)%nat) f]).
      rewrite <- app_assoc. rewrite Nat.add_0_r. cbn [app]. do 3 f_equal.
      apply fileLoop_uuid_ext. intro k.
      rewrite length_app. cbn [List.length]. f_equal. lia.
Qed.

Lemma totalAfter_sum tot files : totalAfter tot files == tot + filesKB files.
Proof. exact (fold_total_from sizeInKB files tot). Qed.

(** Files that are all declared images and fit the budget are all taken. *)
Lemma fileLoop_all_taken uuid l2 : forall l1 acc tot alerts,
  forallb declaredImage l1 = true ->
  totalAfter tot l1 <= budget ->
  fileLoop uuid (l1 ++ l2) acc tot alerts
  = fileLoop uuid l2 (acc ++ recordsOf uuid (List.length acc) l1)
             (totalAfter tot l1) alerts.
Proof.
  induction l1 as [|f l1 IH]; intros acc tot alerts Hall Hfit.
  - simpl. rewrite app_nil_r. reflexivity.
  - cbn [forallb] in Hall. apply andb_true_iff in Hall. destruct Hall as [Hf Hl].
    cbn [totalAfter fold_left] in Hfit. fold (totalAfter (tot + sizeInKB f) l1) in Hfit.
    cbn [app fileLoop]. rewrite nonimage_not_declared, Hf. cbn [negb].
    assert (G : gtb (tot + sizeInKB f) (MAX_TOTAL_SIZE_MB * 1024) = false).
    { apply gtb_false. fold budget.
      pose proof (totalAfter_sum (tot + sizeInKB f) l1).
      pose proof (filesKB_nonneg l1). lra. }
    rewrite G, (IH _ _ _ Hl Hfit).
    rewrite length_app, <- app_assoc. cbn [List.length app recordsOf totalAfter fold_left].
    replace (List.length acc + 1)%nat with (S (List.length acc)) by lia.
    reflexivity.
Qed.

Lemma sumOriginal_recordsOf uuid from files :
  sumOriginal (recordsOf uuid from files) == filesKB files.
Proof.
  revert from. induction files as [|f files IH]; intro from.
  - reflexivity.
  - cbn [recordsOf]. rewrite sumOriginal_cons, filesKB_cons, IH. reflexivity.
Qed.

(** X5.  Dropping two lists of files one after the other gives the same
    state as dropping them as one list, provided every file of the first
    list is declared as an image and the sizes of the records held and of
    the first list add up to less than the budget.  (The identifiers of the
    second call are those the single call would have drawn next.) *)
Theorem two_drops_as_one (uuid : nat -> string) (l1 l2 : list File) (s : State) :
  forallb declaredImage l1 = true ->
  sumOriginal (images s) + filesKB l1 < budget ->
  handleFileProcessing (fun k => uuid (List.length l1 + k)%nat) l2
    (handleFileProcessing uuid l1 s)
  = handleFileProcessing uuid (l1 ++ l2) s.
Proof.
  intros Hall Hfit.
  assert (Hfit' : totalAfter (sumOriginal (images s)) l1 <= budget).
  { pose proof (totalAfter_sum (sumOriginal (images s)) l1). lra. }
  assert (H1 : acceptedImages (images s) uuid l1 = recordsOf uuid 0 l1).
  { unfold acceptedImages, processFiles.
    rewrite <- (app_nil_r l1) at 1.
    rewrite (fileLoop_all_taken uuid [] l1 [] _ [] Hall Hfit'). reflexivity. }
  assert (H12 : acceptedImages (images s) uuid (l1 ++ l2)
                = recordsOf uuid 0 l1
                  ++ acceptedImages (images s ++ recordsOf uuid 0 l1)
                       (fun k => uuid (List.length l1 + k)%nat) l2).
  { unfold acceptedImages, processFiles.
    rewrite (fileLoop_all_taken uuid l2 l1 [] _ [] Hall Hfit').
    cbn [app List.length]. rewrite fileLoop_from, recordsOf_length.
    f_equal. f_equal. apply fileLoop_total_compat.
    pose proof (sumOriginal_app (images s) (recordsOf uuid 0 l1)).
    pose proof (sumOriginal_recordsOf uuid 0 l1).
    pose proof (totalAfter_sum (sumOriginal (images s)) l1). lra. }
  unfold handleFileProcessing. cbn [images quality readers timers decoding].
  rewrite H12, H1, map_app, <- !app_assoc. reflexivity.
Qed.

Lemma two_drops_as_one_witness :
  handleFileProcessing (fun k => uuid0 (List.length [photo] + k)%nat)
    [notes_empty; photo] (handleFileProcessing uuid0 [photo] init)
  = handleFileProcessing uuid0 ([photo] ++ [notes_empty; photo]) init.
Proof.
  apply two_drops_as_one.
  - reflexivity.
  - vm_compute. reflexivity.
Defined.

Lemma updateById_same i l : updateById i (fun img => img) l = l.
Proof.
  unfold updateById. rewrite <- (map_id l) at 2. apply map_ext.
  intro img. destruct (String.eqb (id img) i); reflexivity.
Qed.

(** Every update rewrites the records of one identifier and keeps
    identifiers. *)
Lemma applyUpdate_map i u :
  exists f, (forall img, id (f img) = id img) /\
            forall l, applyUpdate i u l = updateById i f l.
Proof.
  destruct u as [|url| | | |src|]; cbn [applyUpdate];
    try (eexists; split; [|intro l; reflexivity]; intro img; reflexivity).
  unfold compress_done. destruct (getFileSizeFromDataURL url) as [sz|].
  - eexists; split; [|intro l; reflexivity]. intro img. reflexivity.
  - exists (fun img => img). split; [reflexivity|].
    intro l. symmetry. apply updateById_same.
Qed.

Lemma remove_updateById i j f l :
  (forall img, id (f img) = id img) ->
  handleRemoveImage j (updateById i f l) = updateById i f (handleRemoveImage j l).
Proof.
  intro Hf. unfold handleRemoveImage, updateById.
  induction l as [|a l IH]; [reflexivity|].
  cbn [map filter].
  assert (E : id (if String.eqb (id a) i then f a else a) = id a).
  { destruct (String.eqb (id a) i); [apply Hf | reflexivity]. }
  rewrite E. destruct (negb (String.eqb (id a) j)); cbn [map]; rewrite IH;
    reflexivity.
Qed.

Lemma updateById_commute i j f g l :
  i <> j ->
  (forall img, id (f img) = id img) -> (forall img, id (g img) = id img) ->
  updateById i f (updateById j g l) = updateById j g (updateById i f l).
Proof.
  intros Hij Hf Hg. unfold updateById. rewrite !map_map. apply map_ext.
  intro img.
  destruct (String.eqb_spec (id img) i) as [Ei | Ni];
    destruct (String.eqb_spec (id img) j) as [Ej | Nj].
  - exfalso. apply Hij. congruence.
  - rewrite Hf. destruct (String.eqb_spec (id img) j); [contradiction|].
    destruct (String.eqb_spec (id img) i); [reflexivity | contradiction].
  - rewrite Hg. destruct (String.eqb_spec (id img) i); [contradiction|].
    destruct (String.eqb_spec (id img) j); [reflexivity | contradiction].
  - destruct (String.eqb_spec (id img) i); [contradiction|].
    destruct (String.eqb_spec (id img) j); [contradiction | reflexivity].
Qed.

(** X6.  Removing a record and applying an update of the component - the
    start of a compression, its result or failure, a reader event - give
    the same records in either order, whichever identifiers they are for:
    an update arriving before or after a removal makes no difference. *)
Theorem removal_commutes_with_updates
    (i j : string) (u : Update) (l : list ImageCompressionState) :
  handleRemoveImage j (applyUpdate i u l) = applyUpdate i u (handleRemoveImage j l).
Proof.
  destruct (applyUpdate_map i u) as (f & Hf & E).
  rewrite !E. apply remove_updateById. exact Hf.
Qed.

(** X7.  Updates addressed to two different identifiers commute: the
    records do not depend on the order in which the compressions and reads
    of different records complete. *)
Theorem updates_of_distinct_records_commute
    (i j : string) (u v : Update) (l : list ImageCompressionState) :
  i <> j ->
  applyUpdate i u (applyUpdate j v l) = applyUpdate j v (applyUpdate i u l).
Proof.
  intro Hij.
  destruct (applyUpdate_map i u) as (f & Hf & Ef).
  destruct (applyUpdate_map j v) as (g & Hg & Eg).
  rewrite !Ef, !Eg. apply updateById_commute; assumption.
Qed.

Lemma updates_of_distinct_records_commute_witness :
  applyUpdate "a" (Encoded tiny_url)
    (applyUpdate (uuid0 0) LoadFailed [photo_record blank_url 0])
  = applyUpdate (uuid0 0) LoadFailed
      (applyUpdate "a" (Encoded tiny_url) [photo_record blank_url 0]).
Proof.
  apply updates_of_distinct_records_commute. discriminate.
Defined.

Lemma updateById_at i f before r after :
  id r = i ->
  ~ In i (map id before) -> ~ In i (map id after) ->
  updateById i f (before ++ r :: after) = before ++ f r :: after.
Proof.
  intros E Hb Ha. unfold updateById. rewrite map_app. cbn [map].
  rewrite E, String.eqb_refl.
  fold (updateById i f before). fold (updateById i f after).
  rewrite !updateById_absent by assumption. reflexivity.
Qed.

(** X1.  Given that [crypto.randomUUID()] never returns an identifier in
    use, the records held have pairwise distinct identifiers in every
    reachable state: no update, removal or reset brings two records under
    one identifier.  Hence an update addressed to the identifier of a record
    rewrites that record, in place and under the same identifier, and no
    other. *)
Theorem identifiers_stay_distinct (s : State) :
  reachable s ->
  NoDup (map id (images s)) /\
  (forall before r after u,
     images s = before ++ r :: after ->
     exists r', applyUpdate (id r) u (images s) = before ++ r' :: after /\
                id r' = id r).
Proof.
  intro Hs. pose proof (reachable_ids_unique s Hs) as Hnd.
  split; [exact Hnd|].
  intros before r after u E.
  destruct (applyUpdate_map (id r) u) as (f & Hf & Eu).
  rewrite Eu, E. rewrite E, map_app in Hnd. cbn [map] in Hnd.
  apply NoDup_remove in Hnd. destruct Hnd as [_ Hnotin].
  exists (f r). split; [|apply Hf].
  apply updateById_at; [reflexivity | |];
    intro Hin; apply Hnotin; apply in_or_app; auto.
Qed.

Lemma identifiers_stay_distinct_witness :
  NoDup (map id (images (compressed blank_url 0))).
Proof. exact (proj1 (identifiers_stay_distinct _ blank_reachable)). Defined.

Lemma updateById_twice i f g l :
  (forall img, id (g img) = id img) ->
  updateById i f (updateById i g l) = updateById i (fun img => f (g img)) l.
Proof.
  intro Hg. unfold updateById. rewrite map_map. apply map_ext. intro img.
  destruct (String.eqb (id img) i) eqn:E; [|rewrite E; reflexivity].
  rewrite Hg, E. reflexivity.
Qed.

(** X8.  For one record the last result wins: of two compression results
    applied one after the other only the second is left, whatever quality
    each was made for.  A result sets the preview and ends [isCompressing]
    for its record but never touches an error message: a message set by an
    earlier failure stays until the next compression starts. *)
Theorem last_result_wins (i : string) (url1 url2 : string)
    (l : list ImageCompressionState) :
  compress_done i url2 (compress_done i url1 l) = compress_done i url2 l /\
  Forall2 (fun old new =>
             error new = error old /\
             (id old = i ->
                compressedSrc new = Some url2 /\ isCompressing new = false) /\
             (id old <> i -> new = old))
          l (compress_done i url2 l).
Proof.
  unfold compress_done.
  destruct (getFileSize_cases url1) as [E1 | (b1 & n1 & _ & _ & _ & E1)];
    destruct (getFileSize_cases url2) as [E2 | (b2 & n2 & _ & _ & _ & E2)];
    rewrite E1, E2;
    (split;
     [ rewrite updateById_twice by reflexivity; reflexivity
     | apply Forall2_updateById; intros img H; simpl; tauto ]).
Qed.

Lemma string_of_N_head (n : N) (rest : string) :
  String.get 0 (string_of_N n ++ rest)%string <> Some "-"%char.
Proof.
  unfold string_of_N, NilZero.string_of_uint.
  destruct (N.to_uint n); simpl; discriminate.
Qed.

Lemma toFixed1_unsigned (x : Q) :
  0 <= x -> String.get 0 (toFixed1 x) <> Some "-"%char.
Proof.
  intro Hx. unfold toFixed1.
  assert (G : gtb 0 x = false) by (apply gtb_false; exact Hx).
  rewrite G. cbn [append]. apply string_of_N_head.
Qed.

(** X9.  [globalStats] never shows a negative saving or reduction: neither
    [saved] nor [ratio] starts with a minus sign, and when the compressed
    sizes add up to at least the original sizes (an empty batch included)
    both read "0.0". *)
Theorem stats_never_negative (imgs : list ImageCompressionState) :
  String.get 0 (saved (globalStats imgs)) <> Some "-"%char /\
  String.get 0 (ratio (globalStats imgs)) <> Some "-"%char /\
  (sumOriginal imgs <= sumCompressed imgs ->
   saved (globalStats imgs) = "0.0" /\ ratio (globalStats imgs) = "0.0").
Proof.
  unfold globalStats. cbn [saved ratio].
  set (o := sumOriginal imgs). set (c := sumCompressed imgs).
  split; [|split].
  - destruct (gtb (o - c) 0) eqn:G; [|discriminate].
    apply gtb_true in G. apply toFixed1_unsigned. lra.
  - destruct (gtb (if gtb o 0 then (o - c) / o * 100 else 0) 0) eqn:G;
      [|discriminate].
    apply gtb_true in G. apply toFixed1_unsigned. lra.
  - intro Hle.
    assert (G : gtb (o - c) 0 = false) by (apply gtb_false; lra).
    rewrite G. split; [reflexivity|].
    destruct (gtb o 0) eqn:Go.
    + apply gtb_true in Go.
      destruct (ratio_sign (o - c) o Go) as [_ Hneg].
      assert (G' : gtb ((o - c) / o * 100) 0 = false)
        by (apply gtb_false; apply Hneg; lra).
      rewrite G'. reflexivity.
    + reflexivity.
Qed.

Lemma stats_never_negative_witness :
  saved (globalStats []) = "0.0" /\ ratio (globalStats []) = "0.0".
Proof.
  apply (proj2 (proj2 (stats_never_negative []))).
  vm_compute. discriminate.
Defined.

Lemma estimate_nonneg url kb : getFileSizeFromDataURL url = Returns kb -> 0 <= kb.
Proof.
  intro E. destruct (getFileSize_cases url) as [E0 | (b & n & _ & _ & _ & E1)].
  - rewrite E0 in E. injection E as <-. lra.
  - rewrite E1 in E. injection E as <-. apply kbOfBytes_nonneg.
Qed.

Lemma reachable_compressed_nonneg s :
  reachable s -> Forall (fun img => 0 <= compressedSize img) (images s).
Proof.
  intro Hs. eapply Forall_impl; [|apply reachable_size_matches; exact Hs].
  intros img H. unfold size_matches in H.
  destruct (compressedSrc img) as [src|].
  - destruct H as [_ H]. eapply estimate_nonneg. exact H.
  - rewrite H. lra.
Qed.

(** X10.  In every reachable state the reduction that [globalStats] shows is
    the one-decimal print of a number between 0 and 100: compressed sizes
    are never negative, so the saving never exceeds the original total. *)
Theorem reduction_between_0_and_100 (s : State) :
  reachable s ->
  exists r, ratio (globalStats (images s)) = toFixed1 r /\ 0 <= r /\ r <= 100.
Proof.
  intro Hs. unfold globalStats. cbn [ratio].
  pose proof (total_nonneg compressedSize _ (reachable_compressed_nonneg s Hs)) as Hc.
  change (total compressedSize (images s)) with (sumCompressed (images s)) in Hc.
  set (o := sumOriginal (images s)) in *. set (c := sumCompressed (images s)) in *.
  destruct (gtb (if gtb o 0 then (o - c) / o * 100 else 0) 0) eqn:G.
  - exists (if gtb o 0 then (o - c) / o * 100 else 0).
    split; [reflexivity|]. apply gtb_true in G. split; [lra|].
    destruct (gtb o 0) eqn:Go; [|lra].
    apply gtb_true in Go.
    assert (H1 : (o - c) / o <= 1).
    { apply Qle_shift_div_r; [exact Go | lra]. }
    lra.
  - exists 0. split; [reflexivity | lra].
Qed.

Lemma reduction_between_0_and_100_witness :
  exists r, ratio (globalStats (images (compressed blank_url 0))) = toFixed1 r /\
            0 <= r /\ r <= 100.
Proof. exact (reduction_between_0_and_100 _ blank_reachable). Defined.

Lemma ext_scan_some l : forall k r,
  ext_scan l k = Some r -> exists e, l = e ++ "."%char :: r.
Proof.
  induction l as [|c l IH]; intros k r H; simpl in H; [discriminate|].
  destruct (Ascii.eqb_spec c "."%char) as [-> | _].
  - destruct k; [discriminate|]. injection H as <-. exists []. reflexivity.
  - destruct (Ascii.eqb c "/"); [discriminate|].
    destruct (IH _ _ H) as [e ->]. exists (c :: e). reflexivity.
Qed.

Lemma string_of_list_ascii_app a b :
  string_of_list_ascii (a ++ b)
  = (string_of_list_ascii a ++ string_of_list_ascii b)%string.
Proof. induction a as [|c a IH]; simpl; [reflexivity | rewrite IH; reflexivity]. Qed.

Lemma prefix_append a b : String.prefix a (a ++ b)%string = true.
Proof.
  induction a as [|c a IH]; simpl.
  - destruct b; reflexivity.
  - destruct (ascii_dec c c); [exact IH | contradiction].
Qed.

Lemma append_empty (a : string) : (a ++ "")%string = a.
Proof. induction a as [|c a IH]; simpl; [reflexivity | rewrite IH; reflexivity]. Qed.

Lemma length_append_string (a b : string) :
  String.length (a ++ b)%string = (String.length a + String.length b)%nat.
Proof. induction a as [|c a IH]; simpl; [reflexivity | rewrite IH; reflexivity]. Qed.

(** X11.  The base name that [stripExtension] gives is always a beginning
    of the file name - the whole name, or the name cut before a dot - so it
    is never longer than the name and holds no character the name does not
    have at that place. *)
Theorem stripExtension_is_a_beginning (fileName : string) :
  String.prefix (stripExtension fileName) fileName = true /\
  (String.length (stripExtension fileName) <= String.length fileName)%nat /\
  (stripExtension fileName = fileName \/
   exists ext, fileName = (stripExtension fileName ++ "." ++ ext)%string).
Proof.
  assert (H : stripExtension fileName = fileName \/
              exists ext, fileName = (stripExtension fileName ++ "." ++ ext)%string).
  { unfold stripExtension.
    destruct (ext_scan (rev (list_ascii_of_string fileName)) 0) as [r|] eqn:E;
      [|left; reflexivity].
    right. destruct (ext_scan_some _ _ _ E) as [e He].
    apply (f_equal (@rev ascii)) in He.
    rewrite rev_involutive, rev_app_distr in He. cbn [rev] in He.
    rewrite <- app_assoc in He. cbn [app] in He.
    exists (string_of_list_ascii (rev e)).
    rewrite <- (string_of_list_ascii_of_string fileName) at 1.
    rewrite He, string_of_list_ascii_app. reflexivity. }
  assert (P : String.prefix (stripExtension fileName) fileName = true).
  { destruct H as [-> | [ext E]].
    - rewrite <- (append_empty fileName) at 2. apply prefix_append.
    - rewrite E at 2. apply prefix_append. }
  split; [exact P|]. split; [|exact H].
  destruct H as [-> | [ext E]]; [lia|].
  rewrite E at 2. rewrite length_append_string. lia.
Qed.

(** X12.  Two files whose names differ only in the extension get the same
    download name and the same archive entry name at a given quality: for
    any base and any two extensions (not empty, without dot or slash) the
    records of [base.ext1] and [base.ext2] are both named
    [base_Q<quality>.jpg]. *)
Theorem same_base_same_entry_name
    (base ext1 ext2 : string) (img1 img2 : ImageCompressionState) (q : N) :
  ext1 <> "" -> contains "." ext1 = false -> contains "/" ext1 = false ->
  ext2 <> "" -> contains "." ext2 = false -> contains "/" ext2 = false ->
  name (file img1) = (base ++ "." ++ ext1)%string ->
  name (file img2) = (base ++ "." ++ ext2)%string ->
  entryName img1 q = entryName img2 q /\
  entryName img1 q = (base ++ "_Q" ++ string_of_N q ++ ".jpg")%string.
Proof.
  intros N1 D1 S1 N2 D2 S2 E1 E2. unfold entryName.
  rewrite E1, E2, !stripExtension_ext by assumption. split; reflexivity.
Qed.

Lemma same_base_same_entry_name_witness :
  entryName (photo_record blank_url 0) 70
  = entryName (with_file {| name := "photo.jpg"; type := "image/jpeg";
                            size := 10; content := [] |}
                         (photo_record blank_url 0)) 70 /\
  entryName (photo_record blank_url 0) 70
  = ("photo" ++ "_Q" ++ string_of_N 70 ++ ".jpg")%string.
Proof.
  apply (same_base_same_entry_name "photo" "png" "jpg");
    try reflexivity; discriminate.
Defined.

(** X13.  [handleBatchDownload] builds an archive exactly when there is at
    least one record and every record is finished (has a preview or an error
    message, and is not compressing).  With no record, or with one record
    still compressing or waiting, it only shows its "please wait" alert. *)
Theorem download_only_when_all_finished (s : State) :
  (handleBatchDownload s
   = AlertShown "Please wait for all images to finish compressing."
   <-> images s = [] \/ exists img, In img (images s) /\ isFinished img = false) /\
  (handleBatchDownload s
   = ZipDownloaded (archiveName (quality s))
                   (zipArchive (zipEntries (images s) (quality s)))
   <-> images s <> [] /\ forall img, In img (images s) -> isFinished img = true) /\
  (forall img, In img (images s) -> isCompressing img = true ->
     handleBatchDownload s
     = AlertShown "Please wait for all images to finish compressing.").
Proof.
  assert (Hall : allCompressed (globalStats (images s)) = true <->
                 images s <> [] /\
                 forall img, In img (images s) -> isFinished img = true).
  { unfold globalStats. cbn [allCompressed].
    rewrite andb_true_iff, forallb_forall. split.
    - intros [Hf Hl]. split; [|exact Hf].
      intro E. rewrite E in Hl. discriminate Hl.
    - intros [Hne Hf]. split; [exact Hf|].
      destruct (images s); [contradiction | reflexivity]. }
  assert (Hnot : allCompressed (globalStats (images s)) = false <->
                 images s = [] \/
                 exists img, In img (images s) /\ isFinished img = false).
  { unfold globalStats. cbn [allCompressed].
    rewrite andb_false_iff. split.
    - intros [Hf | Hl].
      + right. clear -Hf. induction (images s) as [|a l IH]; [discriminate|].
        cbn [forallb] in Hf. apply andb_false_iff in Hf.
        destruct Hf as [Ha | Hl].
        * exists a. split; [left; reflexivity | exact Ha].
        * destruct (IH Hl) as (img & Hin & Himg). exists img.
          split; [right; exact Hin | exact Himg].
      + left. destruct (images s); [reflexivity | discriminate Hl].
    - intros [E | (img & Hin & Himg)].
      + right. rewrite E. reflexivity.
      + left. destruct (forallb isFinished (images s)) eqn:F; [|reflexivity].
        rewrite forallb_forall in F. rewrite (F img Hin) in Himg.
        discriminate Himg. }
  unfold handleBatchDownload.
  split; [|split].
  - rewrite <- Hnot.
    destruct (allCompressed (globalStats (images s))); simpl;
      split; intro H; try reflexivity; discriminate H.
  - rewrite <- Hall.
    destruct (allCompressed (globalStats (images s))); simpl;
      split; intro H; try reflexivity; discriminate H.
  - intros img Hin Hc.
    assert (F : allCompressed (globalStats (images s)) = false).
    { apply Hnot. right. exists img. split; [exact Hin|].
      unfold isFinished. rewrite Hc. apply andb_false_r. }
    rewrite F. reflexivity.
Qed.

Lemma download_only_when_all_finished_witness :
  handleBatchDownload compressing
  = AlertShown "Please wait for all images to finish compressing.".
Proof.
  apply (proj2 (proj2 (download_only_when_all_finished compressing))
           (hd (photo_record "" 0) (images compressing))).
  - left. reflexivity.
  - reflexivity.
Defined.

Lemma accepted_without_original imgs uuid files img :
  In img (acceptedImages imgs uuid files) -> hasOriginal img = false.
Proof.
  intro Hin.
  assert (Hall : Forall (fun r => hasOriginal r = false)
                        (acceptedImages imgs uuid files)).
  { apply Forall_fileLoop; [reflexivity | constructor]. }
  rewrite Forall_forall in Hall. apply Hall. exact Hin.
Qed.

(** X14.  A change of quality made while dropped files are still being read
    does not reach them.  After [handleFileProcessing] and then
    [handleQualityChange q], the readers of the new files still carry the
    quality that was set when the files were dropped; every compression the
    change has started or put on a timer is for a record held before the
    drop; and when such a reader completes, the compression it starts is at
    the quality of the drop, not at [q]. *)
Theorem quality_change_misses_files_being_read
    (uuid : nat -> string) (fileList : list File) (q : N) (s : State) :
  let s1 := handleFileProcessing uuid fileList s in
  let s2 := handleQualityChange q s1 in
  quality s2 = q /\
  readers s2
  = readers s
    ++ map (readTask (quality s)) (acceptedImages (images s) uuid fileList) /\
  (forall t, In t (timers s2 ++ decoding s2) ->
     In t (timers s ++ decoding s) \/
     exists img, In img (images s) /\ hasOriginal img = true /\
                 t = encodeTask q img) /\
  (forall r src state,
     In r (map (readTask (quality s)) (acceptedImages (images s) uuid fileList)) ->
     decoding (compressImage (read_id r) src (read_quality r) state)
     = decoding state
       ++ [{| task_id := read_id r; task_src := src;
              task_quality := quality s |}]).
Proof.
  cbv zeta.
  destruct (handleQualityChange_calls q (handleFileProcessing uuid fileList s))
    as (Hq & Hr & _ & Hd & Ht).
  split; [exact Hq|]. split; [rewrite Hr; reflexivity|]. split.
  - intros t Hin. rewrite Ht, Hd in Hin. cbn [timers decoding handleFileProcessing] in Hin.
    assert (Hnew : forall part,
              (forall img, In img part ->
                 In img (images (handleFileProcessing uuid fileList s))) ->
              In t (map (encodeTask q) (filter hasOriginal part)) ->
              exists img, In img (images s) /\ hasOriginal img = true /\
                          t = encodeTask q img).
    { intros part Hpart Hm. apply in_map_iff in Hm.
      destruct Hm as (img & <- & Hf). apply filter_In in Hf.
      destruct Hf as [Hp Ho]. exists img. split; [|split; [exact Ho | reflexivity]].
      apply Hpart in Hp. cbn [images handleFileProcessing] in Hp.
      apply in_app_or in Hp. destruct Hp as [Hp | Hp]; [exact Hp|].
      apply accepted_without_original in Hp. congruence. }
    assert (Hsplit : forall n img,
              In img (firstn n (images (handleFileProcessing uuid fileList s))) \/
              In img (skipn n (images (handleFileProcessing uuid fileList s))) ->
              In img (images (handleFileProcessing uuid fileList s))).
    { intros n img H.
      rewrite <- (firstn_skipn n (images (handleFileProcessing uuid fileList s))).
      apply in_or_app. exact H. }
    apply in_app_or in Hin. destruct Hin as [Hin | Hin];
      apply in_app_or in Hin; destruct Hin as [Hin | Hin].
    + left. apply in_or_app. left. exact Hin.
    + right. apply (Hnew (skipn 1 (images (handleFileProcessing uuid fileList s))));
        [|exact Hin]. intros img H. apply (Hsplit 1%nat). right. exact H.
    + left. apply in_or_app. right. exact Hin.
    + right. apply (Hnew (firstn 1 (images (handleFileProcessing uuid fileList s))));
        [|exact Hin]. intros img H. apply (Hsplit 1%nat). left. exact H.
  - intros r src state Hin. apply in_map_iff in Hin.
    destruct Hin as (img & <- & _). reflexivity.
Qed.

Lemma quality_change_misses_files_being_read_witness :
  decoding (compressImage (read_id (reader0 false)) original_url
              (read_quality (reader0 false))
              (handleQualityChange 30 (handleFileProcessing uuid0 [photo] init)))
  = [{| task_id := uuid0 0; task_src := original_url; task_quality := 70 |}].
Proof.
  apply (proj2 (proj2 (proj2
           (quality_change_misses_files_being_read uuid0 [photo] 30 init)))).
  left. reflexivity.
Defined.

(* ========================================================================= *)
(** ** The single-image component *)
(* ========================================================================= *)

Lemma split_parts_short sep s :
  Forall (fun part => (String.length part <= String.length s)%nat) (split sep s).
Proof.
  induction s as [|c s IH]; simpl.
  - constructor; [simpl; lia | constructor].
  - destruct (Ascii.eqb c sep).
    + constructor; [simpl; lia|].
      eapply Forall_impl; [|exact IH]. simpl. intros; lia.
    + destruct (split sep s) as [|hd tl]; [constructor; [simpl; lia | constructor]|].
      inversion IH as [|? ? Hhd Htl]; subst.
      constructor; [simpl; lia|].
      eapply Forall_impl; [|exact Htl]. simpl. intros; lia.
Qed.

Lemma mathRound_close (x : Q) :
  Single.mathRound x - x <= 1 # 2 /\ x - Single.mathRound x < 1 # 2.
Proof.
  unfold Single.mathRound.
  pose proof (Qfloor_le (x + (1 # 2))) as Hlo.
  pose proof (Qlt_floor (x + (1 # 2))) as Hhi.
  rewrite inject_Z_plus in Hhi. change (inject_Z 1) with 1 in Hhi.
  split; lra.
Qed.

Lemma text_measure (y : Q) : y * 3 / 4 / 1024 == y * (3 # 4096).
Proof.
  unfold Qdiv. change (/ 4) with (1 # 4). change (/ 1024) with (1 # 1024). ring.
Qed.

Lemma fileSizeOf_whole (compressed : string) :
  exists n : Z, Single.fileSizeOf compressed = inject_Z n /\ (0 <= n)%Z.
Proof.
  unfold Single.fileSizeOf, Single.mathRound. eexists. split; [reflexivity|].
  change 0%Z with (Qfloor 0). apply Qfloor_resp_le.
  assert (0 <= inject_Z (Z.of_nat (String.length compressed))).
  { change 0 with (inject_Z 0). rewrite <- Zle_Qle. lia. }
  pose proof (text_measure (inject_Z (Z.of_nat (String.length compressed)))).
  lra.
Qed.

(** X15.  The two components measure a compressed data URL differently: the
    batch component decodes the payload, the single-image component takes
    three quarters of the length of the whole text and rounds to whole KB.
    For every string, the single-image figure is a whole number, within half
    a KB of [length * 3 / 4 / 1024], and never lower than the batch figure
    by 0.505 KB or more; for a decodable payload the decoded bytes over 1024
    never exceed the unrounded text measure. *)
Theorem text_measure_bounds_decoded_measure (dataurl : string) :
  (exists n : Z, Single.fileSizeOf dataurl = inject_Z n /\ (0 <= n)%Z) /\
  Single.fileSizeOf dataurl
    - inject_Z (Z.of_nat (String.length dataurl)) * 3 / 4 / 1024 <= 1 # 2 /\
  inject_Z (Z.of_nat (String.length dataurl)) * 3 / 4 / 1024
    - Single.fileSizeOf dataurl < 1 # 2 /\
  (exists kb, getFileSizeFromDataURL dataurl = Returns kb /\
              kb < Single.fileSizeOf dataurl + (101 # 200)) /\
  (forall base64 binary,
     nth_error (split "," dataurl) 1 = Some base64 ->
     atob base64 = Some binary ->
     inject_Z (Z.of_nat (String.length binary)) / 1024
     <= inject_Z (Z.of_nat (String.length dataurl)) * 3 / 4 / 1024).
Proof.
  assert (Hdec : forall base64 binary,
     nth_error (split "," dataurl) 1 = Some base64 ->
     atob base64 = Some binary ->
     inject_Z (Z.of_nat (String.length binary)) / 1024
     <= inject_Z (Z.of_nat (String.length dataurl)) * 3 / 4 / 1024).
  { intros base64 binary Hnth Ha.
    destruct (atob_length _ _ Ha) as [_ Hlen].
    pose proof (split_parts_short "," dataurl) as Hparts.
    rewrite Forall_forall in Hparts.
    specialize (Hparts base64 (nth_error_In _ _ Hnth)).
    assert (Hz : (4 * Z.of_nat (String.length binary)
                  <= 3 * Z.of_nat (String.length dataurl))%Z) by lia.
    rewrite Zle_Qle in Hz. rewrite !inject_Z_mult in Hz.
    change (inject_Z 4) with 4 in Hz. change (inject_Z 3) with 3 in Hz.
    pose proof (text_measure (inject_Z (Z.of_nat (String.length dataurl)))).
    assert (inject_Z (Z.of_nat (String.length binary)) / 1024
            == inject_Z (Z.of_nat (String.length binary)) * (1 # 1024))
      by (unfold Qdiv; reflexivity).
    lra. }
  pose proof (mathRound_close
                (inject_Z (Z.of_nat (String.length dataurl)) * 3 / 4 / 1024))
    as [Hup Hdown].
  fold (Single.fileSizeOf dataurl) in Hup, Hdown.
  split; [apply fileSizeOf_whole|]. split; [exact Hup|]. split; [exact Hdown|].
  split; [|exact Hdec].
  destruct (getFileSize_cases dataurl) as [E | (b & bin & Hnth & _ & Ha & E)].
  - exists 0. split; [exact E|].
    destruct (fileSizeOf_whole dataurl) as (n & En & Hn).
    rewrite En. rewrite Zle_Qle in Hn. change (inject_Z 0) with 0 in Hn. lra.
  - exists (kbOfBytes (String.length bin)). split; [exact E|].
    pose proof (Hdec b bin Hnth Ha) as Hle.
    pose proof (round2_close (inject_Z (Z.of_nat (String.length bin)) / 1024))
      as [Hr _].
    fold (kbOfBytes (String.length bin)) in Hr. lra.
Qed.

(** The cells of the single-image component that go together. *)
Lemma single_step_invariant s s' :
  Single.step s s' ->
  ((forall t, In t (Single.decoding s) -> Single.imageSrc s <> None) /\
   (Single.compressedSrc s <> None -> Single.imageSrc s <> None) /\
   0 <= Single.originalSize s /\
   exists n : Z, Single.compressedSize s = inject_Z n /\ (0 <= n)%Z) ->
  ((forall t, In t (Single.decoding s') -> Single.imageSrc s' <> None) /\
   (Single.compressedSrc s' <> None -> Single.imageSrc s' <> None) /\
   0 <= Single.originalSize s' /\
   exists n : Z, Single.compressedSize s' = inject_Z n /\ (0 <= n)%Z).
Proof.
  intros Hstep (Hd & Hc & Ho & Hz).
  destruct Hstep as [s file0 | s before after q result Hr Hurl
                    | s before after t compressed Hdec Hurl
                    | s before after t Hdec | s newQuality].
  - destruct file0 as [f|]; cbn [Single.handleFile fst]; [|tauto].
    destruct (negb (startsWith (type f) "image/")); cbn [fst]; [tauto|].
    cbn. repeat split; try assumption.
    apply round2_nonneg. apply Qle_shift_div_l; [reflexivity|].
    rewrite Qmult_0_l. change 0 with (inject_Z 0). rewrite <- Zle_Qle. lia.
  - cbn. repeat split; try assumption; intros; discriminate.
  - cbn. assert (Hi : Single.imageSrc s <> None).
    { apply (Hd t). rewrite Hdec. apply in_or_app. right. left. reflexivity. }
    split; [intros; exact Hi|]. split; [intros; exact Hi|].
    split; [exact Ho | apply fileSizeOf_whole].
  - cbn. split; [|tauto]. intros t' Hin. apply (Hd t').
    rewrite Hdec. apply in_app_or in Hin. apply in_or_app.
    destruct Hin; [left | right; right]; assumption.
  - unfold Single.qualityChanged.
    destruct (Single.imageSrc s) as [src|] eqn:E.
    + destruct (truthy (Some src)); cbn;
        (split; [intros; discriminate|]); (split; [intros; discriminate|]);
        (split; assumption).
    + cbn. split; [|split; [|split; assumption]].
      * intros t Hin. exfalso. exact (Hd t Hin eq_refl).
      * intro H. exfalso. exact (Hc H eq_refl).
Qed.

(** X16.  In every reachable state of the single-image component a
    compressed preview never exists without the original having been read
    (so the panel of the compressed image always has an original beside
    it); the original size is never negative and the compressed size is a
    whole, non-negative number of KB. *)
Theorem single_preview_needs_original (s : Single.State) :
  Single.reachable s ->
  (Single.compressedSrc s <> None -> Single.imageSrc s <> None) /\
  0 <= Single.originalSize s /\
  exists n : Z, Single.compressedSize s = inject_Z n /\ (0 <= n)%Z.
Proof.
  intro Hs.
  assert (H : (forall t, In t (Single.decoding s) -> Single.imageSrc s <> None) /\
              (Single.compressedSrc s <> None -> Single.imageSrc s <> None) /\
              0 <= Single.originalSize s /\
              exists n : Z, Single.compressedSize s = inject_Z n /\ (0 <= n)%Z).
  { induction Hs as [|s s' _ IH Hstep].
    - cbn. repeat split; try tauto; try lra.
      exists 0%Z. split; [reflexivity | lia].
    - exact (single_step_invariant s s' Hstep IH). }
  tauto.
Qed.

Lemma single_preview_needs_original_witness :
  0 <= Single.originalSize (fst (Single.handleFile (Some photo) Single.init)).
Proof.
  apply (single_preview_needs_original
           (fst (Single.handleFile (Some photo) Single.init))).
  apply (Single.reach_step Single.init); [apply Single.reach_init|].
  apply Single.step_file.
Defined.

(* ========================================================================= *)
(** ** No record is left unfinished without work under way *)
(* ========================================================================= *)

Lemma In_updateById_cases i f l new :
  In new (updateById i f l) ->
  exists old, In old l /\
              ((id old <> i /\ new = old) \/ (id old = i /\ new = f old)).
Proof.
  unfold updateById. intro H. apply in_map_iff in H.
  destruct H as (old & E & Hin). exists old. split; [exact Hin|].
  destruct (String.eqb_spec (id old) i); auto.
Qed.

Lemma pendingFor_mono j s s' :
  (forall r, In r (readers s) -> read_id r = j ->
     exists r', In r' (readers s') /\ read_id r' = j) ->
  (forall t, In t (decoding s) -> task_id t = j -> In t (decoding s')) ->
  pendingFor j s -> pendingFor j s'.
Proof.
  intros Hr Hd [(r & Hin & E) | (t & Hin & E)].
  - left. exact (Hr r Hin E).
  - right. exists t. split; [apply Hd; assumption | exact E].
Qed.

Lemma In_without {A : Type} (before after : list A) (x y : A) :
  In y (before ++ x :: after) -> y <> x -> In y (before ++ after).
Proof.
  intros Hin Hne. apply in_app_or in Hin. apply in_or_app.
  destruct Hin as [H | [H | H]]; auto. congruence.
Qed.

Lemma settled_update s s' i f :
  (forall img, id (f img) = id img) ->
  images s' = updateById i f (images s) ->
  (forall j, j <> i -> pendingFor j s -> pendingFor j s') ->
  (forall old, isFinished (f old) = true) \/ pendingFor i s' ->
  settledOrPending s -> settledOrPending s'.
Proof.
  intros Hf Himg Hother Hhit Hinv new Hin.
  rewrite Himg in Hin. apply In_updateById_cases in Hin.
  destruct Hin as (old & Hold & [[Hne ->] | [He ->]]).
  - destruct (Hinv old Hold) as [Hfin | Hp]; [left; exact Hfin|].
    right. apply Hother; assumption.
  - rewrite Hf, He. destruct Hhit as [Hfin | Hp]; [left; apply Hfin | right; exact Hp].
Qed.

Lemma settled_subset s s' :
  (forall img, In img (images s') -> In img (images s)) ->
  (forall j, pendingFor j s -> pendingFor j s') ->
  settledOrPending s -> settledOrPending s'.
Proof.
  intros Himg Hp Hinv new Hin.
  destruct (Hinv new (Himg new Hin)) as [H | H]; [left | right]; auto.
Qed.

Lemma estimate_returns url : exists kb, getFileSizeFromDataURL url = Returns kb.
Proof.
  destruct (getFileSize_cases url) as [E | (b & n & _ & _ & _ & E)]; eauto.
Qed.

Lemma step_settledOrPending s s' :
  step s s' -> settledOrPending s -> settledOrPending s'.
Proof.
  intros Hstep Hinv.
  destruct Hstep as [s uuid fileList Hnd
                    | s before after r Hr Hst
                    | s before after r src Hr Hst Hurl
                    | s before after r Hr Hst
                    | s before after t Ht
                    | s before after t url Hd Hurl
                    | s before after t Hd
                    | s before after t Hd
                    | s newQuality | s i | s].
  - (* files *)
    intros new Hin. cbn [images handleFileProcessing] in Hin.
    apply in_app_or in Hin. destruct Hin as [Hin | Hin].
    + destruct (Hinv new Hin) as [H | H]; [left; exact H|].
      right. revert H. apply pendingFor_mono.
      * intros r0 H0 E. exists r0. split; [|exact E].
        cbn [readers handleFileProcessing]. apply in_or_app. left. exact H0.
      * intros t0 H0 _. exact H0.
    + right. left. exists (readTask (quality s) new). split; [|reflexivity].
      cbn [readers handleFileProcessing]. apply in_or_app. right.
      apply in_map. exact Hin.
  - (* reader.onloadstart *)
    apply (settled_update s _ (read_id r) (set_compressing true));
      [reflexivity | reflexivity | | | exact Hinv].
    + intros j _. apply pendingFor_mono; cbn [readers decoding].
      * intros r0 H0 E. rewrite Hr in H0. apply in_app_or in H0.
        destruct H0 as [H0 | [<- | H0]].
        -- exists r0. split; [apply in_or_app; left; exact H0 | exact E].
        -- eexists. split; [apply in_or_app; right; left; reflexivity | exact E].
        -- exists r0. split; [apply in_or_app; right; right; exact H0 | exact E].
      * intros t0 H0 _. exact H0.
    + right. left. eexists. split;
        [cbn [readers]; apply in_or_app; right; left; reflexivity | reflexivity].
  - (* reader.onload *)
    apply (settled_update s _ (read_id r)
             (fun img => set_error None
                (set_compressing true
                   (set_compressing true (set_originalSrc src img)))));
      [reflexivity | | | | exact Hinv].
    + cbn [images compressImage]. unfold compress_begin, reader_load.
      apply (updateById_twice (read_id r)
               (fun img => set_error None (set_compressing true img))
               (fun img => set_compressing true (set_originalSrc src img))).
      reflexivity.
    + intros j Hne. apply pendingFor_mono; cbn [readers decoding compressImage].
      * intros r0 H0 E. exists r0. split; [|exact E].
        rewrite Hr in H0. apply (In_without _ _ r); [exact H0|].
        intros ->. apply Hne. symmetry. exact E.
      * intros t0 H0 _. apply in_or_app. left. exact H0.
    + right. right. eexists. split;
        [cbn [decoding compressImage]; apply in_or_app; right; left; reflexivity
        | reflexivity].
  - (* reader.onerror *)
    apply (settled_update s _ (read_id r)
             (fun img => set_error (Some "Read error.") (set_compressing false img)));
      [reflexivity | reflexivity | | | exact Hinv].
    + intros j Hne. apply pendingFor_mono; cbn [readers decoding].
      * intros r0 H0 E. exists r0. split; [|exact E].
        rewrite Hr in H0. apply (In_without _ _ r); [exact H0|].
        intros ->. apply Hne. symmetry. exact E.
      * intros t0 H0 _. exact H0.
    + left. intro old. unfold isFinished. cbn. rewrite orb_true_r. reflexivity.
  - (* a timer fires *)
    apply (settled_update s _ (task_id t)
             (fun img => set_error None (set_compressing true img)));
      [reflexivity | reflexivity | | | exact Hinv].
    + intros j _. apply pendingFor_mono; cbn [readers decoding runCall compressImage].
      * intros r0 H0 E. exists r0. split; assumption.
      * intros t0 H0 _. apply in_or_app. left. exact H0.
    + right. right. eexists. split;
        [cbn [decoding runCall compressImage]; apply in_or_app; right; left;
         reflexivity | reflexivity].
  - (* a compression result *)
    destruct (estimate_returns url) as [kb Ekb].
    apply (settled_update s _ (task_id t)
             (fun img => set_compressing false (set_compressed url kb img)));
      [reflexivity | | | | exact Hinv].
    + cbn [images]. unfold compress_done. rewrite Ekb. reflexivity.
    + intros j Hne. apply pendingFor_mono; cbn [readers decoding].
      * intros r0 H0 E. exists r0. split; assumption.
      * intros t0 H0 E. rewrite Hd in H0. apply (In_without _ _ t); [exact H0|].
        intros ->. apply Hne. symmetry. exact E.
    + left. intro old. unfold isFinished. cbn [compressedSrc isCompressing
        set_compressing set_compressed error].
      rewrite (isDataURL_truthy _ Hurl). reflexivity.
  - (* no canvas context *)
    apply (settled_update s _ (task_id t)
             (fun img => set_error (Some "Canvas error.") (set_compressing false img)));
      [reflexivity | reflexivity | | | exact Hinv].
    + intros j Hne. apply pendingFor_mono; cbn [readers decoding].
      * intros r0 H0 E. exists r0. split; assumption.
      * intros t0 H0 E. rewrite Hd in H0. apply (In_without _ _ t); [exact H0|].
        intros ->. apply Hne. symmetry. exact E.
    + left. intro old. unfold isFinished. cbn. rewrite orb_true_r. reflexivity.
  - (* the image does not load *)
    apply (settled_update s _ (task_id t)
             (fun img => set_error (Some "Image load failed.")
                           (set_compressing false img)));
      [reflexivity | reflexivity | | | exact Hinv].
    + intros j Hne. apply pendingFor_mono; cbn [readers decoding].
      * intros r0 H0 E. exists r0. split; assumption.
      * intros t0 H0 E. rewrite Hd in H0. apply (In_without _ _ t); [exact H0|].
        intros ->. apply Hne. symmetry. exact E.
    + left. intro old. unfold isFinished. cbn. rewrite orb_true_r. reflexivity.
  - (* quality *)
    destruct (handleQualityChange_calls newQuality s) as (_ & Hr & Hi & Hd & _).
    assert (Hp : forall j, pendingFor j s ->
                           pendingFor j (handleQualityChange newQuality s)).
    { intro j. apply pendingFor_mono.
      - intros r0 H0 E. exists r0. rewrite Hr. split; assumption.
      - intros t0 H0 _. rewrite Hd. apply in_or_app. left. exact H0. }
    destruct (images s) as [|p rest] eqn:E.
    + apply (settled_subset s); [|exact Hp | exact Hinv].
      intros img Hin. rewrite Hi in Hin. cbn in Hin. rewrite E. exact Hin.
    + cbn [firstn filter] in Hi, Hd. destruct (hasOriginal p) eqn:Ho.
      * apply (settled_update s _ (id p)
                 (fun img => set_error None (set_compressing true img)));
          [reflexivity | | | | exact Hinv].
        -- rewrite Hi, E. reflexivity.
        -- intros j _. apply Hp.
        -- right. right. exists (encodeTask newQuality p).
           split; [|reflexivity]. rewrite Hd. apply in_or_app. right.
           left. reflexivity.
      * apply (settled_subset s); [|exact Hp | exact Hinv].
        intros img Hin. rewrite Hi in Hin. cbn in Hin. rewrite E. exact Hin.
  - (* remove *)
    apply (settled_subset s); [| |exact Hinv].
    + intros img Hin. cbn [images with_images] in Hin.
      unfold handleRemoveImage in Hin. apply filter_In in Hin. tauto.
    + intro j. apply pendingFor_mono; cbn [readers decoding with_images]; eauto.
  - (* reset *)
    intros img [].
Qed.

(** X17.  In every reachable state each record is either finished - it has
    a preview or an error message and is not compressing - or a reader or
    an image decode is still at work for it.  So when no reader and no
    decode is at work and there is a record, every record is finished and
    [handleBatchDownload] builds the archive: the download is never left
    blocked by a record that nothing will complete. *)
Theorem idle_means_finished (s : State) :
  reachable s ->
  (forall img, In img (images s) ->
     isFinished img = true \/ pendingFor (id img) s) /\
  (readers s = [] -> decoding s = [] -> images s <> [] ->
   allCompressed (globalStats (images s)) = true /\
   handleBatchDownload s
   = ZipDownloaded (archiveName (quality s))
                   (zipArchive (zipEntries (images s) (quality s)))).
Proof.
  intro Hs.
  assert (Hinv : settledOrPending s).
  { induction Hs as [|s s' _ IH Hstep].
    - intros img [].
    - exact (step_settledOrPending s s' Hstep IH). }
  split; [exact Hinv|].
  intros Hr Hd Hne.
  assert (Hall : allCompressed (globalStats (images s)) = true).
  { unfold globalStats. cbn [allCompressed]. apply andb_true_iff. split.
    - apply forallb_forall. intros img Hin.
      destruct (Hinv img Hin) as [H | [(r & Hin' & _) | (t & Hin' & _)]].
      + exact H.
      + rewrite Hr in Hin'. destruct Hin'.
      + rewrite Hd in Hin'. destruct Hin'.
    - destruct (images s); [contradiction | reflexivity]. }
  split; [exact Hall|].
  unfold handleBatchDownload. rewrite Hall. reflexivity.
Qed.

Lemma idle_means_finished_witness :
  allCompressed (globalStats (images (compressed blank_url 0))) = true.
Proof.
  apply (proj2 (idle_means_finished (compressed blank_url 0) blank_reachable));
    [reflexivity | reflexivity | discriminate].
Defined.

Lemma toFixed1_signed (x : Q) :
  x < 0 -> String.get 0 (toFixed1 x) = Some "-"%char.
Proof.
  intro Hx. unfold toFixed1.
  assert (G : gtb 0 x = true) by (apply gtb_true; exact Hx).
  rewrite G. reflexivity.
Qed.

(** X18.  Unlike the global statistics, the reduction printed in a row of
    the queue is not clamped: it starts with a minus sign exactly when the
    record's original size is positive and its compressed size is larger
    than its original size. *)
Theorem row_reduction_can_be_negative (img : ImageCompressionState) :
  String.get 0 (rowRatioText img) = Some "-"%char <->
  0 < originalSize img /\ originalSize img < compressedSize img.
Proof.
  unfold rowRatioText, rowRatio. cbv zeta.
  set (o := originalSize img). set (c := compressedSize img).
  destruct (gtb o 0) eqn:Go.
  - apply gtb_true in Go.
    assert (Hi : 0 < / o) by (apply Qinv_lt_0_compat; exact Go).
    split.
    + intro H. split; [exact Go|].
      destruct (Qlt_le_dec o c) as [Hlt | Hle]; [exact Hlt|].
      exfalso. apply (toFixed1_unsigned ((o - c) / o * 100)); [|exact H].
      unfold Qdiv.
      assert (0 <= (o - c) * / o) by (apply Qmult_le_0_compat; lra). lra.
    + intros [_ Hlt]. apply toFixed1_signed. unfold Qdiv.
      assert (0 < (c - o) * / o) by (apply Qmult_lt_0_compat; lra).
      assert ((c - o) * / o == - ((o - c) * / o)) by ring. lra.
  - apply gtb_false in Go. split.
    + intro H. exfalso. apply (toFixed1_unsigned 0); [lra | exact H].
    + intros [H _]. lra.
Qed.

(* ========================================================================= *)
(** ** Files whose content the browser cannot decode *)
(* ========================================================================= *)

Lemma In_updateById_hit i f l x :
  In x l -> id x = i -> In (f x) (updateById i f l).
Proof.
  intros Hin E. unfold updateById. apply in_map_iff. exists x.
  split; [|exact Hin]. rewrite E, String.eqb_refl. reflexivity.
Qed.

Lemma In_updateById_miss i f l x :
  In x l -> id x <> i -> In x (updateById i f l).
Proof.
  intros Hin E. unfold updateById. apply in_map_iff. exists x.
  split; [|exact Hin]. destruct (String.eqb_spec (id x) i); [contradiction | reflexivity].
Qed.

Lemma NoDup_without {A : Type} (before after : list A) (x : A) :
  NoDup (before ++ x :: after) ->
  NoDup (before ++ after) /\ ~ In x (before ++ after).
Proof.
  intro H. split; [exact (NoDup_remove_1 _ _ _ H) | exact (NoDup_remove_2 _ _ _ H)].
Qed.

Section BrowserRuns.

Variable readAsDataURL : File -> string.
Variable decodes : string -> bool.


(** A step of the browser's machine is a step of the machine. *)
Lemma browser_step_is_step s s' : Browser.step readAsDataURL decodes s s' -> step s s'.
Proof.
  intro H. destruct H.
  - apply step_files. assumption.
  - eapply step_reader_loadstart; eassumption.
  - eapply step_reader_load; eassumption.
  - eapply step_reader_error; eassumption.
  - eapply step_timer; eassumption.
  - eapply step_encoded; eassumption.
  - eapply step_canvas_error; eassumption.
  - eapply step_load_error; eassumption.
  - apply step_quality.
  - apply step_remove.
  - apply step_reset.
Qed.

Lemma browser_reachable_is_reachable s : Browser.reachable readAsDataURL decodes s -> reachable s.
Proof.
  induction 1 as [|s s' _ IH Hstep]; [apply reach_init|].
  exact (reach_step s s' IH (browser_step_is_step s s' Hstep)).
Qed.

(** Soundness passes over an update by identifier. *)
Lemma sound_update s s' i f :
  (forall img, id (f img) = id img) ->
  (forall img, file (f img) = file img) ->
  images s' = updateById i f (images s) ->
  NoDup (map read_id (readers s')) ->
  (forall r', In r' (readers s') ->
     exists r, In r (readers s) /\ read_id r = read_id r' /\
               read_file r = read_file r') ->
  (forall t, In t (timers s' ++ decoding s') ->
     In t (timers s ++ decoding s) \/
     forall img, In img (images s) -> id img = task_id t ->
                 task_src t = readAsDataURL (file img)) ->
  (forall old, In old (images s) -> id old = i -> Browser.recordSound readAsDataURL decodes s old ->
     (originalSrc (f old) = "" \/ originalSrc (f old) = readAsDataURL (file old)) /\
     (compressedSrc (f old) <> None -> decodes (readAsDataURL (file old)) = true) /\
     (hasOriginal (f old) = true -> decodes (readAsDataURL (file old)) = false ->
      error (f old) = None \/ error (f old) = Some "Image load failed.") /\
     (originalSrc (f old) = originalSrc old \/
      forall r', In r' (readers s') -> read_id r' <> i)) ->
  Browser.sound readAsDataURL decodes s -> Browser.sound readAsDataURL decodes s'.
Proof.
  intros Hid Hfile Himg Hnd Hreaders Htasks Hupd [_ Hinv].
  split; [exact Hnd|].
  intros new Hin. rewrite Himg in Hin. apply In_updateById_cases in Hin.
  destruct Hin as (old & Hold & Hcase).
  pose proof (Hinv old Hold) as Hsound.
  assert (Hsound' := Hsound).
  destruct Hsound' as (H1 & H2 & H3 & H4 & H5).
  assert (Htask : forall t, In t (timers s' ++ decoding s') ->
                            task_id t = id old ->
                            task_src t = readAsDataURL (file old)).
  { intros t Ht E. destruct (Htasks t Ht) as [Hin | Hnew].
    - exact (H5 t Hin E).
    - apply Hnew; [exact Hold | symmetry; exact E]. }
  assert (Hreader : forall r', In r' (readers s') -> read_id r' = id old ->
                               read_file r' = file old /\ originalSrc old = "").
  { intros r' Hr' E. destruct (Hreaders r' Hr') as (r & Hr & Eid & Efile).
    rewrite <- Efile. apply H4; [exact Hr | congruence]. }
  destruct Hcase as [[Hne ->] | [He ->]].
  - unfold Browser.recordSound. repeat split; try assumption.
    + apply (Hreader r); assumption.
    + apply (Hreader r); assumption.
  - destruct (Hupd old Hold He Hsound) as (U1 & U2 & U3 & U4).
    unfold Browser.recordSound. rewrite Hid, Hfile.
    split; [exact U1|]. split; [exact U2|]. split; [exact U3|].
    split; [|exact Htask].
    intros r' Hr' E. destruct U4 as [Esame | Hnone].
    + rewrite Esame. apply Hreader; assumption.
    + exfalso. apply (Hnone r' Hr'). congruence.
Qed.


Lemma sound_subset s s' :
  (forall img, In img (images s') -> In img (images s)) ->
  readers s' = readers s -> timers s' = timers s -> decoding s' = decoding s ->
  Browser.sound readAsDataURL decodes s -> Browser.sound readAsDataURL decodes s'.
Proof.
  intros Himg Hr Ht Hd [Hnd Hinv]. split; [rewrite Hr; exact Hnd|].
  intros img Hin. specialize (Hinv img (Himg img Hin)).
  unfold Browser.recordSound in *. rewrite Hr, Ht, Hd. exact Hinv.
Qed.

Lemma In_apart {A : Type} (before after : list A) (x y : A) :
  In y (before ++ after) -> In y (before ++ x :: after).
Proof.
  intro H. apply in_app_or in H. apply in_or_app.
  destruct H; [left | right; right]; assumption.
Qed.

Lemma hasOriginal_empty img : originalSrc img = "" -> hasOriginal img = false.
Proof. unfold hasOriginal. intros ->. reflexivity. Qed.

Lemma sound_original_read s img :
  Browser.recordSound readAsDataURL decodes s img ->
  hasOriginal img = true -> originalSrc img = readAsDataURL (file img).
Proof.
  intros (H1 & _) Ho. destruct H1 as [E | E]; [|exact E].
  rewrite (hasOriginal_empty img E) in Ho. discriminate.
Qed.

Lemma files_sound s uuid files :
  NoDup (map id (images s ++ acceptedImages (images s) uuid files)) ->
  (forall img, In img (acceptedImages (images s) uuid files) ->
               ~ In (id img) (Browser.workIds s)) ->
  Browser.sound readAsDataURL decodes s ->
  Browser.sound readAsDataURL decodes (handleFileProcessing uuid files s).
Proof.
  intros Hfresh Hwork [Hnd Hinv].
  set (new := acceptedImages (images s) uuid files) in *.
  assert (Hnew : NoDup (map id new)).
  { rewrite map_app in Hfresh. exact (NoDup_app_remove_l _ _ Hfresh). }
  assert (Hreaders : map read_id (map (readTask (quality s)) new) = map id new).
  { rewrite map_map. reflexivity. }
  assert (Hfields : forall img, In img new ->
            originalSrc img = "" /\ compressedSrc img = None).
  { assert (Hall : Forall (fun r => originalSrc r = "" /\ compressedSrc r = None)
                          new).
    { apply Forall_fileLoop; [intros; split; reflexivity | constructor]. }
    rewrite Forall_forall in Hall. exact Hall. }
  unfold handleFileProcessing. fold new. split; cbn [readers images].
  - rewrite map_app, Hreaders. apply NoDup_app; [exact Hnd | exact Hnew|].
    intros i Hi Hi'. apply in_map_iff in Hi'. destruct Hi' as (img & <- & Himg).
    apply (Hwork img Himg). unfold Browser.workIds. apply in_or_app. left. exact Hi.
  - intros img Hin. unfold Browser.recordSound. cbn [readers timers decoding].
    apply in_app_or in Hin. destruct Hin as [Hold | Hin].
    + destruct (Hinv img Hold) as (H1 & H2 & H3 & H4 & H5).
      split; [exact H1|]. split; [exact H2|]. split; [exact H3|].
      split; [|exact H5].
      intros r Hr E. apply in_app_or in Hr. destruct Hr as [Hr | Hr].
      * exact (H4 r Hr E).
      * exfalso. apply in_map_iff in Hr. destruct Hr as (n & <- & Hn).
        cbn in E. rewrite map_app in Hfresh.
        apply (NoDup_app_apart _ _ (id img) Hfresh).
        -- apply in_map. exact Hold.
        -- rewrite <- E. apply in_map. exact Hn.
    + destruct (Hfields img Hin) as [Eo Ec].
      split; [left; exact Eo|].
      split; [intro H; contradiction|].
      split; [intro H; rewrite (hasOriginal_empty img Eo) in H; discriminate|].
      split.
      * intros r Hr E. apply in_app_or in Hr. destruct Hr as [Hr | Hr].
        -- exfalso. apply (Hwork img Hin). unfold Browser.workIds.
           apply in_or_app. left. rewrite <- E. apply in_map. exact Hr.
        -- apply in_map_iff in Hr. destruct Hr as (n & <- & Hn). cbn in E.
           rewrite (same_id_same_record new n img Hnew Hn Hin E).
           split; [reflexivity | exact Eo].
      * intros t Ht E. exfalso. apply (Hwork img Hin). unfold Browser.workIds.
        apply in_or_app. right. rewrite <- E. apply in_map. exact Ht.
Qed.

Lemma quality_sound s q :
  NoDup (map id (images s)) ->
  Browser.sound readAsDataURL decodes s ->
  Browser.sound readAsDataURL decodes (handleQualityChange q s).
Proof.
  intros Hids Hs.
  destruct (handleQualityChange_calls q s) as (_ & Er & Ei & Ed & Et).
  assert (Hcall : forall img, In img (images s) -> hasOriginal img = true ->
            forall img', In img' (images s) ->
              id img' = task_id (encodeTask q img) ->
              task_src (encodeTask q img) = readAsDataURL (file img')).
  { intros img Hin Ho img' Hin' E. cbn in *.
    rewrite (same_id_same_record (images s) img' img Hids Hin' Hin E).
    apply (sound_original_read s); [apply Hs; exact Hin | exact Ho]. }
  assert (Htasks : forall t,
            In t (timers (handleQualityChange q s)
                  ++ decoding (handleQualityChange q s)) ->
            In t (timers s ++ decoding s) \/
            forall img, In img (images s) -> id img = task_id t ->
                        task_src t = readAsDataURL (file img)).
  { intros t Hin. rewrite Et, Ed in Hin.
    rewrite !in_app_iff in Hin. rewrite in_app_iff.
    destruct Hin as [[Hin | Hin] | [Hin | Hin]]; auto;
      right; apply in_map_iff in Hin; destruct Hin as (img & <- & Hin);
      apply filter_In in Hin; destruct Hin as [Hin Ho];
      apply Hcall; [|exact Ho| |exact Ho].
    - rewrite <- (firstn_skipn 1 (images s)). apply in_or_app. right. exact Hin.
    - rewrite <- (firstn_skipn 1 (images s)). apply in_or_app. left. exact Hin. }
  assert (Hcase :
    images (handleQualityChange q s)
    = updateById "" (fun img => img) (images s) \/
    exists p, images (handleQualityChange q s)
              = updateById (id p)
                  (fun img => set_error None (set_compressing true img))
                  (images s)).
  { rewrite Ei. destruct (images s) as [|p rest]; [left; reflexivity|].
    cbn [firstn filter]. destruct (hasOriginal p); cbn [map beginAll fold_left].
    - right. exists p. reflexivity.
    - left. symmetry. apply updateById_same. }
  destruct Hcase as [Hsame | [p Hbegin]].
  - apply (sound_update s _ "" (fun img => img)); try reflexivity; try exact Hs.
    + exact Hsame.
    + rewrite Er. apply Hs.
    + intros r' Hr'. rewrite Er in Hr'. exists r'. auto.
    + exact Htasks.
    + intros old Hold Eid (H1 & H2 & H3 & _). auto.
  - apply (sound_update s _ (id p)
             (fun img => set_error None (set_compressing true img)));
      try reflexivity; try exact Hs.
    + exact Hbegin.
    + rewrite Er. apply Hs.
    + intros r' Hr'. rewrite Er in Hr'. exists r'. auto.
    + exact Htasks.
    + intros old Hold Eid (H1 & H2 & H3 & _). cbn. auto.
Qed.

Lemma step_sound s s' :
  NoDup (map id (images s)) ->
  Browser.step readAsDataURL decodes s s' ->
  Browser.sound readAsDataURL decodes s -> Browser.sound readAsDataURL decodes s'.
Proof.
  intros Hids Hstep Hs.
  destruct Hstep as
    [s uuid files Hfresh Hwork
    | s before after r Hr Hstarted
    | s before after r Hr Hstarted Hurl
    | s before after r Hr Hstarted
    | s before after t Ht
    | s before after t out Hd Hdec Hurl
    | s before after t Hd Hdec
    | s before after t Hd Hdec
    | s q | s i | s].
  - (* files *)
    apply files_sound; assumption.
  - (* loadstart *)
    apply (sound_update s _ (read_id r) (set_compressing true));
      try reflexivity; try exact Hs; cbn [readers timers decoding images].
    + destruct Hs as [Hnd _]. rewrite Hr in Hnd.
      rewrite map_app in *. exact Hnd.
    + intros r' Hin. apply in_app_or in Hin.
      destruct Hin as [Hin | [<- | Hin]].
      * exists r'. rewrite Hr. split; [apply in_or_app; left; exact Hin | auto].
      * exists r. rewrite Hr. split; [apply in_elt | auto].
      * exists r'. rewrite Hr.
        split; [apply in_or_app; right; right; exact Hin | auto].
    + intros t Hin. left. exact Hin.
    + intros old Hold E (H1 & H2 & H3 & _). cbn. auto.
  - (* load *)
    assert (Hgone : NoDup (map read_id (before ++ after)) /\
                    ~ In (read_id r) (map read_id (before ++ after))).
    { destruct Hs as [Hnd _]. rewrite Hr, map_app in Hnd. cbn [map] in Hnd.
      rewrite map_app. apply NoDup_without. exact Hnd. }
    assert (Hin_r : In r (readers s)) by (rewrite Hr; apply in_elt).
    apply (sound_update s _ (read_id r)
             (fun img => set_error None (set_compressing true
                (set_compressing true
                   (set_originalSrc (readAsDataURL (read_file r)) img)))));
      try reflexivity; try exact Hs;
      cbn [readers timers decoding images compressImage].
    + unfold compress_begin, reader_load.
      apply (updateById_twice (read_id r)
               (fun img => set_error None (set_compressing true img))
               (fun img => set_compressing true
                             (set_originalSrc (readAsDataURL (read_file r)) img))).
      reflexivity.
    + apply Hgone.
    + intros r' Hin. exists r'. rewrite Hr. split; [apply In_apart; exact Hin | auto].
    + intros t Hin. rewrite app_assoc in Hin. apply in_app_or in Hin.
      destruct Hin as [Hin | [<- | []]]; [left; exact Hin | right].
      intros img Himg E. cbn in *.
      destruct Hs as [_ Hinv]. destruct (Hinv img Himg) as (_ & _ & _ & H4 & _).
      destruct (H4 r Hin_r (eq_sym E)) as [-> _]. reflexivity.
    + intros old Hold E (H1 & H2 & H3 & H4 & _). cbn.
      destruct (H4 r Hin_r (eq_sym E)) as [-> _].
      split; [right; reflexivity|]. split; [exact H2|]. split; [auto|].
      right. intros r' Hr' E'. apply (proj2 Hgone). rewrite <- E'.
      apply in_map. exact Hr'.
  - (* read error *)
    assert (Hgone : NoDup (map read_id (before ++ after))).
    { destruct Hs as [Hnd _]. rewrite Hr, map_app in Hnd. cbn [map] in Hnd.
      rewrite map_app. apply (NoDup_without _ _ _ Hnd). }
    assert (Hin_r : In r (readers s)) by (rewrite Hr; apply in_elt).
    apply (sound_update s _ (read_id r)
             (fun img => set_error (Some "Read error.") (set_compressing false img)));
      try reflexivity; try exact Hs; cbn [readers timers decoding images].
    + exact Hgone.
    + intros r' Hin. exists r'. rewrite Hr. split; [apply In_apart; exact Hin | auto].
    + intros t Hin. left. exact Hin.
    + intros old Hold E (H1 & H2 & H3 & H4 & _). cbn.
      destruct (H4 r Hin_r (eq_sym E)) as [_ Eo].
      split; [exact H1|]. split; [exact H2|]. split; [|left; reflexivity].
      intro Ho. unfold hasOriginal in Ho. cbn in Ho. rewrite Eo in Ho. discriminate.
  - (* timer *)
    apply (sound_update s _ (task_id t)
             (fun img => set_error None (set_compressing true img)));
      try reflexivity; try exact Hs;
      cbn [readers timers decoding images runCall compressImage].
    + apply Hs.
    + intros r' Hin. exists r'. auto.
    + intros t' Hin. left. rewrite Ht. destruct t as [ti ts tq].
      rewrite !in_app_iff in *. cbn [In task_id task_src task_quality] in *.
      tauto.
    + intros old Hold E (H1 & H2 & H3 & _). cbn. auto.
  - (* encoded *)
    destruct (estimate_returns out) as [kb Ekb].
    assert (Hin_t : In t (timers s ++ decoding s)).
    { rewrite Hd. apply in_or_app. right. apply in_elt. }
    apply (sound_update s _ (task_id t)
             (fun img => set_compressing false (set_compressed out kb img)));
      try reflexivity; try exact Hs; cbn [readers timers decoding images].
    + unfold compress_done. rewrite Ekb. reflexivity.
    + apply Hs.
    + intros r' Hin. exists r'. auto.
    + intros t' Hin. left. rewrite Hd. rewrite !in_app_iff in *. cbn [In]. tauto.
    + intros old Hold E (H1 & H2 & H3 & _ & H5). cbn.
      assert (Hok : decodes (readAsDataURL (file old)) = true).
      { rewrite <- (H5 t Hin_t (eq_sym E)). exact Hdec. }
      split; [exact H1|]. split; [intros _; exact Hok|].
      split; [intros _ Hno; congruence | left; reflexivity].
  - (* canvas error *)
    assert (Hin_t : In t (timers s ++ decoding s)).
    { rewrite Hd. apply in_or_app. right. apply in_elt. }
    apply (sound_update s _ (task_id t)
             (fun img => set_error (Some "Canvas error.")
                           (set_compressing false img)));
      try reflexivity; try exact Hs; cbn [readers timers decoding images].
    + apply Hs.
    + intros r' Hin. exists r'. auto.
    + intros t' Hin. left. rewrite Hd. rewrite !in_app_iff in *. cbn [In]. tauto.
    + intros old Hold E (H1 & H2 & H3 & _ & H5). cbn.
      assert (Hok : decodes (readAsDataURL (file old)) = true).
      { rewrite <- (H5 t Hin_t (eq_sym E)). exact Hdec. }
      split; [exact H1|]. split; [exact H2|].
      split; [intros _ Hno; congruence | left; reflexivity].
  - (* load error *)
    apply (sound_update s _ (task_id t)
             (fun img => set_error (Some "Image load failed.")
                           (set_compressing false img)));
      try reflexivity; try exact Hs; cbn [readers timers decoding images].
    + apply Hs.
    + intros r' Hin. exists r'. auto.
    + intros t' Hin. left. rewrite Hd. rewrite !in_app_iff in *. cbn [In]. tauto.
    + intros old Hold E (H1 & H2 & H3 & _). cbn. auto.
  - (* quality *)
    apply quality_sound; assumption.
  - (* remove *)
    apply (sound_subset s); try reflexivity; [|exact Hs].
    intros img Hin. cbn in Hin. unfold handleRemoveImage in Hin.
    apply filter_In in Hin. apply Hin.
  - (* reset *)
    apply (sound_subset s); try reflexivity; [|exact Hs].
    intros img [].
Qed.

Lemma reachable_sound s :
  Browser.reachable readAsDataURL decodes s ->
  Browser.sound readAsDataURL decodes s.
Proof.
  induction 1 as [|s s' Hs IH Hstep].
  - split; [constructor | intros img []].
  - apply (step_sound s s'); [|exact Hstep | exact IH].
    apply reachable_ids_unique. apply browser_reachable_is_reachable. exact Hs.
Qed.

Lemma reachable_settledOrPending s : reachable s -> settledOrPending s.
Proof.
  induction 1 as [|s s' _ IH Hstep].
  - intros img [].
  - exact (step_settledOrPending s s' Hstep IH).
Qed.

(** A record whose file the browser cannot decode never has a preview; once
    its file is read it bears no message but that of [img.onerror], and it
    is either being decoded or bears that message. *)
Lemma undecodable_record s img :
  Browser.reachable readAsDataURL decodes s ->
  In img (images s) ->
  decodes (readAsDataURL (file img)) = false ->
  compressedSrc img = None /\
  (hasOriginal img = true ->
   error img = None \/ error img = Some "Image load failed.") /\
  (hasOriginal img = true ->
   (exists t, In t (decoding s) /\ task_id t = id img) \/
   (error img = Some "Image load failed." /\ isCompressing img = false)).
Proof.
  intros Hs Hin Hno.
  destruct (reachable_sound s Hs) as [_ Hinv].
  destruct (Hinv img Hin) as (H1 & H2 & H3 & H4 & H5).
  assert (Hc : compressedSrc img = None).
  { destruct (compressedSrc img) eqn:E; [|reflexivity].
    assert (decodes (readAsDataURL (file img)) = true)
      by (apply H2; discriminate).
    congruence. }
  split; [exact Hc|]. split; [intro Ho; exact (H3 Ho Hno)|].
  intro Ho.
  destruct (reachable_settledOrPending s
              (browser_reachable_is_reachable s Hs) img Hin)
    as [Hfin | [(r & Hr & E) | Hdec]].
  - right. unfold isFinished in Hfin. rewrite Hc in Hfin. cbn in Hfin.
    apply andb_true_iff in Hfin. destruct Hfin as [He Hc'].
    destruct (H3 Ho Hno) as [E | E]; rewrite E in He; [discriminate|].
    split; [exact E|]. destruct (isCompressing img); [discriminate | reflexivity].
  - destruct (H4 r Hr E) as [_ Eo].
    rewrite (hasOriginal_empty img Eo) in Ho. discriminate.
  - left. exact Hdec.
Qed.

Lemma accepted_takes imgs uuid pre f post :
  declaredImage f = true ->
  sumOriginal imgs + filesKB (pre ++ [f]) < Spec.totalBudgetKB ->
  exists rest,
    acceptedImages imgs uuid (pre ++ f :: post)
    = acceptedImages imgs uuid pre
      ++ newImage (uuid (List.length (acceptedImages imgs uuid pre))) f :: rest.
Proof.
  intros Himg Hfit. unfold acceptedImages, processFiles.
  apply fileLoop_takes; [exact Himg|].
  pose proof budget_value. unfold Spec.totalBudgetKB in Hfit. lra.
Qed.

(** The error does come: read, then refused by the decoder. *)
Lemma decode_error_run s uuid pre f post :
  declaredImage f = true ->
  sumOriginal (images s) + filesKB (pre ++ [f]) < Spec.totalBudgetKB ->
  isDataURL (readAsDataURL f) = true ->
  decodes (readAsDataURL f) = false ->
  exists s',
    Browser.run readAsDataURL decodes
      (handleFileProcessing uuid (pre ++ f :: post) s) s' /\
    (exists img,
       In img (images s') /\
       id img = uuid (List.length (acceptedImages (images s) uuid pre)) /\
       file img = f /\
       originalSrc img = readAsDataURL f /\
       compressedSrc img = None /\
       isCompressing img = false /\
       error img = Some "Image load failed.") /\
    (forall other,
       In other (images (handleFileProcessing uuid (pre ++ f :: post) s)) ->
       id other <> uuid (List.length (acceptedImages (images s) uuid pre)) ->
       In other (images s')).
Proof.
  intros Himg Hfit Hurl Hno.
  destruct (accepted_takes (images s) uuid pre f post Himg Hfit) as [rest Hacc].
  set (taken := acceptedImages (images s) uuid pre) in *.
  set (i := uuid (List.length taken)) in *.
  set (q := quality s).
  set (s0 := handleFileProcessing uuid (pre ++ f :: post) s).
  assert (Hreaders : readers s0
            = (readers s ++ map (readTask q) taken)
              ++ readTask q (newImage i f) :: map (readTask q) rest).
  { unfold s0, handleFileProcessing. cbn [readers]. rewrite Hacc.
    rewrite map_app, app_assoc. reflexivity. }
  assert (Hin0 : In (newImage i f) (images s0)).
  { unfold s0, handleFileProcessing. cbn [images]. rewrite Hacc.
    apply in_or_app. right. apply in_elt. }
  pose proof (Browser.on_loadstart readAsDataURL decodes s0 _ _ _ Hreaders eq_refl)
    as Step1.
  match type of Step1 with Browser.step _ _ _ ?s1 =>
    pose proof (Browser.on_load readAsDataURL decodes s1 _ _ _ eq_refl eq_refl Hurl)
      as Step2
  end.
  cbn [read_id read_file read_quality readTask newImage id file] in Step2.
  match type of Step2 with Browser.step _ _ _ ?s2 =>
    pose proof (Browser.on_load_error readAsDataURL decodes s2
                  (decoding s0) []
                  {| task_id := i; task_src := readAsDataURL f;
                     task_quality := q |} eq_refl Hno) as Step3
  end.
  eexists. split.
  { eapply Browser.run_step; [exact Step1|].
    eapply Browser.run_step; [exact Step2|].
    eapply Browser.run_step; [exact Step3|]. apply Browser.run_done. }
  cbn [images compressImage readers timers decoding read_id readTask newImage
       id task_id].
  split.
  - pose proof (In_updateById_hit i (set_compressing true) _ _ Hin0 eq_refl)
      as H1.
    pose proof (In_updateById_hit i
                  (fun img => set_compressing true
                                (set_originalSrc (readAsDataURL f) img))
                  _ _ H1 eq_refl) as H2.
    pose proof (In_updateById_hit i
                  (fun img => set_error None (set_compressing true img))
                  _ _ H2 eq_refl) as H3.
    pose proof (In_updateById_hit i
                  (fun img => set_error (Some "Image load failed.")
                                (set_compressing false img))
                  _ _ H3 eq_refl) as H4.
    eexists. split; [exact H4|]. cbn. repeat split; reflexivity.
  - intros other Hin Hne.
    unfold compress_load_error, compress_begin, reader_load, reader_loadstart.
    repeat (apply In_updateById_miss; [|exact Hne]). exact Hin.
Qed.

End BrowserRuns.

(** C10 fails as it is worded: a file declared [image/jpeg] of 60 MB dropped
    on the empty component gets no record. *)
Lemma declared_image_without_record :
  ~ (forall imgs uuid files f,
       In f files -> declaredImage f = true ->
       exists img, In img (acceptedImages imgs uuid files) /\ file img = f).
Proof.
  intro H.
  destruct (H [] uuid0 [poster] poster (or_introl eq_refl) eq_refl)
    as (img & Hin & _).
  vm_compute in Hin. exact Hin.
Qed.

(** C10, amended.  Whether a file becomes a record is decided by its
    declared type and by sizes alone.  A file whose declared type starts
    with [image/] gets a record - created without preview and without
    error - whenever the sizes of the records held and of the files of the
    call up to and including it add up to less than the budget; a file gets
    a record only if its declared type starts with [image/]; replacing the
    files by files of the same declared type and size (any name, any
    content) gives the same records up to the file they refer to.

    What the file holds shows later, and only as the error of its record.
    With [readAsDataURL] what the browser reads from a file and [decodes]
    what it can decode: in every state reached, a record whose file the
    browser cannot decode has no preview; once the file is read the record
    bears no message but "Image load failed.", and it is either being
    decoded or bears that message.  And the message does come: after the
    drop there is a run - the reader starts, delivers, the decoder refuses -
    that leaves the record of such a file with that message and every
    record of another identifier as it was. *)
Theorem declared_type_and_budget_decide
    (readAsDataURL : File -> string) (decodes : string -> bool)
    (s : State) (uuid : nat -> string)
    (pre : list File) (f : File) (post : list File) :
  (declaredImage f = true ->
   sumOriginal (images s) + filesKB (pre ++ [f]) < Spec.totalBudgetKB ->
   exists rest,
     acceptedImages (images s) uuid (pre ++ f :: post)
     = acceptedImages (images s) uuid pre
       ++ newImage (uuid (List.length (acceptedImages (images s) uuid pre))) f
       :: rest) /\
  Forall (fun img => declaredImage (file img) = true)
         (acceptedImages (images s) uuid (pre ++ f :: post)) /\
  (forall g : File -> File,
     (forall x, type (g x) = type x) -> (forall x, size (g x) = size x) ->
     acceptedImages (images s) uuid (map g (pre ++ f :: post))
     = map (fun img => with_file (g (file img)) img)
           (acceptedImages (images s) uuid (pre ++ f :: post))) /\
  (forall i,
     compressedSrc (newImage i f) = None /\ error (newImage i f) = None) /\
  (Browser.reachable readAsDataURL decodes s ->
   forall img, In img (images s) ->
     decodes (readAsDataURL (file img)) = false ->
     compressedSrc img = None /\
     (hasOriginal img = true ->
      error img = None \/ error img = Some "Image load failed.") /\
     (hasOriginal img = true ->
      (exists t, In t (decoding s) /\ task_id t = id img) \/
      (error img = Some "Image load failed." /\ isCompressing img = false))) /\
  (declaredImage f = true ->
   sumOriginal (images s) + filesKB (pre ++ [f]) < Spec.totalBudgetKB ->
   isDataURL (readAsDataURL f) = true ->
   decodes (readAsDataURL f) = false ->
   exists s',
     Browser.run readAsDataURL decodes
       (handleFileProcessing uuid (pre ++ f :: post) s) s' /\
     (exists img,
        In img (images s') /\
        id img = uuid (List.length (acceptedImages (images s) uuid pre)) /\
        file img = f /\
        originalSrc img = readAsDataURL f /\
        compressedSrc img = None /\
        isCompressing img = false /\
        error img = Some "Image load failed.") /\
     (forall other,
        In other (images (handleFileProcessing uuid (pre ++ f :: post) s)) ->
        id other <> uuid (List.length (acceptedImages (images s) uuid pre)) ->
        In other (images s'))).
Proof.
  split; [|split; [|split; [|split; [|split]]]].
  - apply accepted_takes.
  - apply fileLoop_declared. constructor.
  - intros g Ht Hsz. unfold acceptedImages, processFiles.
    exact (fileLoop_content uuid g _ Ht Hsz [] _ [] []).
  - intro i. split; reflexivity.
  - intros Hs img Hin Hno.
    exact (undecodable_record readAsDataURL decodes s img Hs Hin Hno).
  - apply decode_error_run.
Qed.

Lemma refused_reachable :
  Browser.reachable readAsDataURL0 decodesNothing refused.
Proof.
  assert (R1 : Browser.reachable readAsDataURL0 decodesNothing
                 (handleFileProcessing uuid0 [fake] init)).
  { apply (Browser.reach_step _ _ init); [apply Browser.reach_init|].
    apply (Browser.on_files _ _ init uuid0 [fake]).
    - vm_compute. repeat constructor; simpl; intuition discriminate.
    - intros img _ []. }
  assert (R4 : exists s, Browser.reachable readAsDataURL0 decodesNothing s /\
                         s = refused).
  { match type of R1 with Browser.reachable _ _ ?s1 =>
      pose proof (Browser.reach_step readAsDataURL0 decodesNothing _ _ R1
        (Browser.on_loadstart readAsDataURL0 decodesNothing s1 [] []
           {| read_id := uuid0 0; read_file := fake; read_quality := 70;
              read_started := false |} eq_refl eq_refl)) as R2 end.
    match type of R2 with Browser.reachable _ _ ?s2 =>
      pose proof (Browser.reach_step readAsDataURL0 decodesNothing _ _ R2
        (Browser.on_load readAsDataURL0 decodesNothing s2 [] []
           {| read_id := uuid0 0; read_file := fake; read_quality := 70;
              read_started := true |} eq_refl eq_refl eq_refl)) as R3 end.
    match type of R3 with Browser.reachable _ _ ?s3 =>
      pose proof (Browser.reach_step readAsDataURL0 decodesNothing _ _ R3
        (Browser.on_load_error readAsDataURL0 decodesNothing s3 [] []
           {| task_id := uuid0 0; task_src := readAsDataURL0 fake;
              task_quality := 70 |} eq_refl eq_refl)) as R4 end.
    eexists. split; [exact R4|]. vm_compute. reflexivity. }
  destruct R4 as (s & Hs & <-). exact Hs.
Qed.

Lemma declared_type_and_budget_decide_witness :
  (exists rest,
     acceptedImages [] uuid0 ([notes_empty] ++ fake :: [poster])
     = acceptedImages [] uuid0 [notes_empty]
       ++ newImage (uuid0 (List.length (acceptedImages [] uuid0 [notes_empty])))
            fake :: rest) /\
  (exists s',
     Browser.run readAsDataURL0 decodesNothing
       (handleFileProcessing uuid0 ([notes_empty] ++ fake :: [poster]) init) s' /\
     exists img,
       In img (images s') /\ file img = fake /\
       error img = Some "Image load failed.") /\
  (forall img, In img (images refused) ->
     compressedSrc img = None /\
     (error img = Some "Image load failed." /\ isCompressing img = false)).
Proof.
  destruct (declared_type_and_budget_decide readAsDataURL0 decodesNothing
              init uuid0 [notes_empty] fake [poster])
    as (H1 & _ & _ & _ & _ & H6).
  destruct (declared_type_and_budget_decide readAsDataURL0 decodesNothing
              refused uuid0 [] fake [])
    as (_ & _ & _ & _ & H5 & _).
  assert (Hfit : sumOriginal (images init) + filesKB ([notes_empty] ++ [fake])
                 < Spec.totalBudgetKB) by (vm_compute; reflexivity).
  split; [|split].
  - apply H1; [reflexivity | exact Hfit].
  - destruct (H6 eq_refl Hfit eq_refl eq_refl)
      as (s' & Hrun & (img & Hin & _ & Hf & _ & _ & _ & He) & _).
    exists s'. split; [exact Hrun|]. exists img. auto.
  - intros img Hin.
    destruct (H5 refused_reachable img Hin eq_refl) as (Hc & _ & Hlate).
    split; [exact Hc|].
    destruct Hin as [<- | []].
    destruct (Hlate eq_refl) as [(t & [] & _) | Hdone]. exact Hdone.
Defined.
